(** * readmerunner: a shallow embedding of the section parser, the prompt
    resolver, the verify runner and the code-block interaction.

    Go strings are modelled by their sequence of code points ([gostring]).
    The Unicode tables the Go code consults ([unicode.ToLower],
    [unicode.IsLetter], [unicode.IsDigit], [unicode.IsSpace]) are kept
    abstract in the record [UnicodeTables]; [ascii_tables] is their ASCII
    part, used on the concrete documents below.  A document is modelled by
    the sequence of lines its [bufio.Scanner] yields.  The scanner stops
    at a line of 64 KiB or more, and [parseSections] does not check
    [scanner.Err()]: such a line and every later one are not in the
    sequence. *)

From Stdlib Require Import List String Ascii ZArith Bool Lia.
Import ListNotations.
Open Scope Z_scope.

(** ** Go strings *)

Definition gostring := list Z.

(** An ASCII literal as a Go string. *)
Definition s (x : string) : gostring :=
  map (fun a => Z.of_nat (nat_of_ascii a)) (list_ascii_of_string x).
Arguments s x%_string.

Definition str_eqb (a b : gostring) : bool :=
  if list_eq_dec Z.eq_dec a b then true else false.

(** [strings.HasPrefix] *)
Fixpoint has_prefix (p x : gostring) : bool :=
  match p, x with
  | [], _ => true
  | c :: p', d :: x' => Z.eqb c d && has_prefix p' x'
  | _ :: _, [] => false
  end.

(** The prefix removed, when present. *)
Fixpoint strip_prefix (p x : gostring) : option gostring :=
  match p, x with
  | [], _ => Some x
  | c :: p', d :: x' => if Z.eqb c d then strip_prefix p' x' else None
  | _ :: _, [] => None
  end.

Fixpoint drop_while (p : Z -> bool) (x : gostring) : gostring :=
  match x with
  | [] => []
  | c :: x' => if p c then drop_while p x' else x
  end.

Fixpoint take_while (p : Z -> bool) (x : gostring) : gostring :=
  match x with
  | [] => []
  | c :: x' => if p c then c :: take_while p x' else []
  end.

(** [strings.Join] *)
Fixpoint join (sep : gostring) (xs : list gostring) : gostring :=
  match xs with
  | [] => []
  | [x] => x
  | x :: xs' => x ++ sep ++ join sep xs'
  end.

(** The class [\s] of Go's regexp syntax: [[\t\n\f\r ]]. *)
Definition re_space (c : Z) : bool :=
  Z.eqb c 9 || Z.eqb c 10 || Z.eqb c 12 || Z.eqb c 13 || Z.eqb c 32.

(** The class [\w]: [[0-9A-Za-z_]]. *)
Definition re_word (c : Z) : bool :=
  ((48 <=? c) && (c <=? 57)) || ((65 <=? c) && (c <=? 90))
  || ((97 <=? c) && (c <=? 122)) || Z.eqb c 95.

(** ** The Unicode tables *)

Record UnicodeTables := {
  to_lower : Z -> Z;
  is_letter : Z -> bool;
  is_digit : Z -> bool;
  is_space : Z -> bool
}.

(** The ASCII part of Go's tables. *)
Definition ascii_tables : UnicodeTables := {|
  to_lower := fun c => if (65 <=? c) && (c <=? 90) then c + 32 else c;
  is_letter := fun c => ((65 <=? c) && (c <=? 90)) || ((97 <=? c) && (c <=? 122));
  is_digit := fun c => (48 <=? c) && (c <=? 57);
  is_space := fun c => Z.eqb c 9 || Z.eqb c 10 || Z.eqb c 11 || Z.eqb c 12
                       || Z.eqb c 13 || Z.eqb c 32
|}.

Section Readmerunner.

Variable U : UnicodeTables.

(** [strings.TrimSpace] *)
Definition trim_space (x : gostring) : gostring :=
  rev (drop_while (is_space U) (rev (drop_while (is_space U) x))).

(** [strings.ToLower] *)
Definition go_to_lower (x : gostring) : gostring := map (to_lower U) x.

(** [strings.Fields]: the maximal runs of non-space runes. *)
Fixpoint fields_aux (cur : gostring) (x : gostring) : list gostring :=
  match x with
  | [] => match cur with [] => [] | _ => [rev cur] end
  | c :: x' =>
      if is_space U c then
        match cur with
        | [] => fields_aux [] x'
        | _ => rev cur :: fields_aux [] x'
        end
      else fields_aux (c :: cur) x'
  end.

Definition fields (x : gostring) : list gostring := fields_aux [] x.

(** ** tags.go *)

Inductive tags_result :=
| TagsOk (tags : list gostring)
| TagsErr.  (* "invalid tags directive format" *)

(** [x = body ++ ")"] with no [)] in [body]. *)
Fixpoint close_paren (x : gostring) : option gostring :=
  match x with
  | [] => None
  | c :: x' =>
      if Z.eqb c 41 then match x' with [] => Some [] | _ => None end
      else option_map (cons c) (close_paren x')
  end.

(** [parseTags]: the regexp [^\[tags\]:#\s*\(\s*([^)]+)\s*\)$] matched with
    leftmost-first priority.  The group takes the body after its leading
    [\s] runes, or the body's last rune when the body is all [\s]. *)
Definition parseTags (line : gostring) : tags_result :=
  match strip_prefix (s "[tags]:#") line with
  | None => TagsErr
  | Some r =>
      match drop_while re_space r with
      | 40 :: r' =>
          match close_paren r' with
          | None | Some [] => TagsErr
          | Some body =>
              let g := drop_while re_space body in
              let group := match g with [] => [last body 0] | _ => g end in
              TagsOk (fields group)
          end
      | _ => TagsErr
      end
  end.

Definition checkForAlwaysTag (tags : list gostring) : bool :=
  existsb (str_eqb (s "always")) tags.

Definition checkSectionTag (sectionTags runTags : list gostring) : bool :=
  match runTags with
  | [] => true
  | _ =>
      let runTags' := runTags ++ [s "always"] in
      existsb (fun tag => existsb (str_eqb tag) runTags') sectionTags
  end.

(** ** parser.go: headings and anchors *)

(** [getHeadingText]: the text and the level. *)
Definition getHeadingText (header : gostring) : gostring * nat :=
  (trim_space (drop_while (Z.eqb 35) header),
   List.length (take_while (Z.eqb 35) header)).

Definition keep_anchor_rune (r : Z) : bool :=
  is_letter U r || is_digit U r || Z.eqb r 32 || Z.eqb r 45.

(** [regexp.MustCompile("-+").ReplaceAllString(_, "-")] *)
Fixpoint collapse_dashes (prev_dash : bool) (x : gostring) : gostring :=
  match x with
  | [] => []
  | c :: x' =>
      if Z.eqb c 45 then
        if prev_dash then collapse_dashes true x'
        else 45 :: collapse_dashes true x'
      else c :: collapse_dashes false x'
  end.

Definition normalizeAnchor (header : gostring) : gostring :=
  let lower := go_to_lower header in
  let b := filter keep_anchor_rune lower in
  let anchor := map (fun r => if Z.eqb r 32 then 45 else r) b in
  collapse_dashes false anchor.

(** ** parser.go: sections *)

Inductive SectionType :=
| SectionText
| SectionHeader
| SectionCode
| SectionPrompt
| SectionUnknown.

Definition SectionType_eqb (a b : SectionType) : bool :=
  match a, b with
  | SectionText, SectionText | SectionHeader, SectionHeader
  | SectionCode, SectionCode | SectionPrompt, SectionPrompt
  | SectionUnknown, SectionUnknown => true
  | _, _ => false
  end.

(** [Section]; Go's field [Type] is [SecType] here. *)
Record Section := mkSection {
  SecType : SectionType;
  Lines : list gostring;
  Tags : list gostring
}.

(** The loop variables of the first pass of [parseSections]. *)
Record ParseState := mkParseState {
  sections : list Section;
  current : Section;
  pendingTags : list gostring;
  inCodeBlock : bool
}.

Definition codeFence : gostring := s "```".

(** [if len(current.Lines) > 0 { sections = append(sections, current) }] *)
Definition flush (secs : list Section) (cur : Section) : list Section :=
  match Lines cur with
  | [] => secs
  | _ => secs ++ [cur]
  end.

Definition append_line (cur : Section) (line : gostring) : Section :=
  mkSection (SecType cur) (Lines cur ++ [line]) (Tags cur).

(** One iteration of the [for scanner.Scan()] loop. *)
Definition scan_line (st : ParseState) (line : gostring) : ParseState :=
  let trimmed := trim_space line in
  if has_prefix (s "[tags]:#") trimmed then
    match parseTags trimmed with
    | TagsOk tags =>
        let pending := pendingTags st ++ tags in
        mkParseState (sections st)
          (mkSection (SecType (current st)) (Lines (current st)) pending)
          pending (inCodeBlock st)
    | TagsErr => st
    end
  else if inCodeBlock st then
    let cur := append_line (current st) line in
    if has_prefix codeFence trimmed then
      mkParseState (sections st ++ [cur])
        (mkSection SectionText [] (pendingTags st)) (pendingTags st) false
    else mkParseState (sections st) cur (pendingTags st) true
  else if has_prefix codeFence trimmed then
    mkParseState (flush (sections st) (current st))
      (mkSection SectionCode [line] (pendingTags st)) (pendingTags st) true
  else if has_prefix (s "#") trimmed then
    mkParseState (flush (sections st) (current st))
      (mkSection SectionHeader [line] (pendingTags st)) [] false
  else if has_prefix (s "[prompt]:#") trimmed then
    mkParseState
      (flush (sections st) (current st)
         ++ [mkSection SectionPrompt [line] (pendingTags st)])
      (mkSection SectionText [] []) (pendingTags st) false
  else mkParseState (sections st) (append_line (current st) line)
         (pendingTags st) false.

Definition initial_state : ParseState :=
  mkParseState [] (mkSection SectionText [] []) [] false.

(** The first pass: the segmented, unfiltered sequence. *)
Definition segment (doc : list gostring) : list Section :=
  let st := fold_left scan_line doc initial_state in
  flush (sections st) (current st).

(** The update of [started] in the second pass. *)
Definition started_after (start : gostring) (started : bool) (sec : Section) : bool :=
  if negb started && SectionType_eqb (SecType sec) SectionHeader then
    str_eqb (normalizeAnchor (fst (getHeadingText (hd [] (Lines sec))))) start
  else started.

(** Whether the second pass appends [sec] to [filtered]. *)
Definition keep_section (userTags : list gostring) (started : bool) (sec : Section) : bool :=
  if checkForAlwaysTag (Tags sec) then true
  else if started then
    match userTags with
    | [] => true
    | _ => checkSectionTag (Tags sec) userTags
    end
  else false.

(** The second pass: the final value of [started] and [filtered]. *)
Fixpoint filter_sections (start : gostring) (userTags : list gostring)
    (started : bool) (secs : list Section) : bool * list Section :=
  match secs with
  | [] => (started, [])
  | sec :: rest =>
      let started' := started_after start started sec in
      let '(fin, out) := filter_sections start userTags started' rest in
      (fin, if keep_section userTags started' sec then sec :: out else out)
  end.

Definition parseSections (doc : list gostring) (start : gostring)
    (userTags : list gostring) : list Section :=
  let '(started, filtered) :=
    filter_sections start userTags (str_eqb start []) (segment doc) in
  if started then filtered else [].

(** ** prompt.go *)

Record Prompt := mkPrompt {
  VarName : gostring;
  Text : gostring;
  Options : list gostring;
  Default : gostring
}.

Definition not_re_space (c : Z) : bool := negb (re_space c).

(** The tail [\s*(\S+)?\s*\)$] of the prompt regexp, leftmost-first: the
    default group's text, [[]] when it does not participate. *)
Definition prompt_tail (t : gostring) : option gostring :=
  let t' := drop_while re_space t in
  let word := take_while not_re_space t' in
  let u := drop_while not_re_space t' in
  if negb (str_eqb word []) && str_eqb (drop_while re_space u) [41] then
    Some word
  else if str_eqb u [] && (2 <=? List.length word)%nat && Z.eqb (last word 0) 41
  then Some (removelast word)
  else if str_eqb t' [41] then Some []
  else None.

(** [(\[[^\]]*\])?] followed by the tail: the options group's text (or
    [[]]) and the default group's text (or [[]]). *)
Definition prompt_options_tail (r : gostring) : option (gostring * gostring) :=
  let r1 := drop_while re_space r in
  let with_group :=
    match r1 with
    | 91 :: r' =>
        let inner := take_while (fun c => negb (Z.eqb c 93)) r' in
        match drop_while (fun c => negb (Z.eqb c 93)) r' with
        | 93 :: r2 =>
            option_map (fun d => (91 :: inner ++ [93], d)) (prompt_tail r2)
        | _ => None
        end
    | _ => None
    end in
  match with_group with
  | Some m => Some m
  | None => option_map (fun d => ([], d)) (prompt_tail r1)
  end.

(** [FindStringSubmatch] of
    [^\[prompt\]:#\s*\(\s*(\w+)\s+Q([^Q]+)Q\s*(\[[^\]]*\])?\s*(\S+)?\s*\)$]
    (Q standing for the double quote): the four groups. *)
Definition prompt_match (line : gostring) :
    option (gostring * gostring * gostring * gostring) :=
  match strip_prefix (s "[prompt]:#") line with
  | None => None
  | Some r =>
      match drop_while re_space r with
      | 40 :: r =>
          let r := drop_while re_space r in
          let name := take_while re_word r in
          let r := drop_while re_word r in
          match name, r with
          | _ :: _, c :: _ =>
              if re_space c then
                match drop_while re_space r with
                | 34 :: r =>
                    let text := take_while (fun c => negb (Z.eqb c 34)) r in
                    match text, drop_while (fun c => negb (Z.eqb c 34)) r with
                    | _ :: _, 34 :: r =>
                        match prompt_options_tail r with
                        | Some (opts, d) => Some (name, text, opts, d)
                        | None => None
                        end
                    | _, _ => None
                    end
                | _ => None
                end
              else None
          | _, _ => None
          end
      | _ => None
      end
  end.

Definition is_bracket (c : Z) : bool := Z.eqb c 91 || Z.eqb c 93.

(** [strings.Trim(_, "[]")] *)
Definition trim_brackets (x : gostring) : gostring :=
  rev (drop_while is_bracket (rev (drop_while is_bracket x))).

Definition parsePrompt (line : gostring) : option Prompt :=
  match prompt_match line with
  | None => None
  | Some (name, text, m3, m4) =>
      let opts :=
        if str_eqb m3 [] then []
        else map trim_space (fields (trim_brackets m3)) in
      Some (mkPrompt name text opts m4)
  end.

Inductive prompt_error :=
| ErrInvalidPromptFormat (line : gostring)
| ErrInvalidResponse (varName : gostring) (options : list gostring).

(** [err.Error()] *)
Definition prompt_error_string (e : prompt_error) : gostring :=
  match e with
  | ErrInvalidPromptFormat line => s "invalid prompt format: " ++ line
  | ErrInvalidResponse v opts =>
      s "invalid response for " ++ v ++ s ". Must be one of ["
        ++ join [32] opts ++ s "]"
  end.

(** A Go [map[string]string]. *)
Definition str_map := list (gostring * gostring).

Definition map_insert (k v : gostring) (m : str_map) : str_map :=
  (k, v) :: filter (fun kv => negb (str_eqb (fst kv) k)) m.

(** The message [processPrompt] passes to [promptFunc]. *)
Definition prompt_message (pd : Prompt) : gostring :=
  [10] ++ Text pd
  ++ (match Options pd with
      | [] => []
      | opts => s " (options: " ++ join (s ", ") opts ++ s ")"
      end)
  ++ (if str_eqb (Default pd) [] then [] else s " [default: " ++ Default pd ++ s "]")
  ++ s ": ".

(** The operator, as the injected [promptFunc]: it may keep state. *)
Variable PS : Type.
Variable ask : PS -> gostring -> PS * gostring.

Fixpoint processPrompt_loop (ps : PS) (varMap : str_map) (prompt : list gostring)
    : PS * (str_map + prompt_error) :=
  match prompt with
  | [] => (ps, inl varMap)
  | line :: rest =>
      let line := trim_space line in
      if has_prefix (s "[prompt]:#") line then
        match parsePrompt line with
        | None => (ps, inr (ErrInvalidPromptFormat line))
        | Some pd =>
            let '(ps', response0) := ask ps (prompt_message pd) in
            let response :=
              if str_eqb response0 [] && negb (str_eqb (Default pd) [])
              then Default pd else response0 in
            match Options pd with
            | [] => processPrompt_loop ps' (map_insert (VarName pd) response varMap) rest
            | opts =>
                if existsb (str_eqb response) opts
                then processPrompt_loop ps' (map_insert (VarName pd) response varMap) rest
                else (ps', inr (ErrInvalidResponse (VarName pd) opts))
            end
        end
      else processPrompt_loop ps varMap rest
  end.

Definition processPrompt (ps : PS) (prompt : list gostring)
    : PS * (str_map + prompt_error) :=
  processPrompt_loop ps [] prompt.

(** ** runner.go: [VerifyRunner.Run] *)

Definition marker : gostring := s "__END_OF_SNIPPET__".
Definition exitMarker : gostring := s "__EXIT_CODE__".

(** [strconv.Atoi] on a 64-bit platform. *)
Fixpoint digits_value (acc : Z) (x : gostring) : option Z :=
  match x with
  | [] => Some acc
  | c :: x' =>
      if (48 <=? c) && (c <=? 57) then digits_value (acc * 10 + (c - 48)) x'
      else None
  end.

Definition atoi (x : gostring) : option Z :=
  let '(neg, ds) :=
    match x with
    | 43 :: r => (false, r)
    | 45 :: r => (true, r)
    | _ => (false, x)
    end in
  match ds with
  | [] => None
  | _ =>
      match digits_value 0 ds with
      | None => None
      | Some v =>
          let z := if neg then - v else v in
          if (- 2 ^ 63 <=? z) && (z <=? 2 ^ 63 - 1) then Some z else None
      end
  end.

(** [%d] *)
Fixpoint digits_rev (fuel : nat) (n : Z) : gostring :=
  match fuel with
  | O => []
  | S f => (48 + n mod 10) :: (if n / 10 =? 0 then [] else digits_rev f (n / 10))
  end.

Definition itoa (z : Z) : gostring :=
  (if z <? 0 then [45] else []) ++ rev (digits_rev 20 (Z.abs z)).

Definition success_msg : gostring :=
  [27] ++ s "[32mSuccess" ++ [27] ++ s "[0m" ++ [10].

Definition failure_msg (code : Z) : gostring :=
  [27] ++ s "[31mFailure [command exited with status " ++ itoa code ++ s "]"
  ++ [27] ++ s "[0m" ++ [10].

Inductive run_error :=
| ErrWrite                            (* stdin.Write failed *)
| ErrParseExitCode (exitLine : gostring)  (* failed to parse exit code *)
| ErrInvalidExitCode (part : gostring).   (* invalid exit code *)

(** [for r.scanner.Scan() { ... if line == marker { break } ... }]: the
    lines before the marker and the lines left in the stream. *)
Fixpoint read_until_marker (stream : list gostring) : list gostring * list gostring :=
  match stream with
  | [] => ([], [])
  | l :: r =>
      if str_eqb l marker then ([], r)
      else let '(o, r') := read_until_marker r in (l :: o, r')
  end.

(** [VerifyRunner.Run]: [write_ok] is the outcome of [r.stdin.Write], and
    [stream] the lines the scanner then reads from the shell; the result is
    the lines left unread and the returned string or error. *)
Definition VerifyRunner_Run (write_ok : bool) (stream : list gostring)
    : list gostring * (gostring + run_error) :=
  if negb write_ok then (stream, inr ErrWrite) else
  let '(output, rest) := read_until_marker stream in
  let '(exitLine, rest) :=
    match rest with [] => ([], []) | l :: r => (l, r) end in
  match fields exitLine with
  | [p0; p1] =>
      if str_eqb p0 exitMarker then
        match atoi p1 with
        | None => (rest, inr (ErrInvalidExitCode p1))
        | Some exitCode =>
            if negb (exitCode =? 0) then (rest, inl (failure_msg exitCode))
            else (rest, inl success_msg)
        end
      else (rest, inr (ErrParseExitCode exitLine))
  | _ => (rest, inr (ErrParseExitCode exitLine))
  end.

(** ** runner.go: the runner registry *)

(** The language families, one persistent shell each. *)
Inductive Family := FBash | FShell | FVerify.

Definition Family_eqb (a b : Family) : bool :=
  match a, b with
  | FBash, FBash | FShell, FShell | FVerify, FVerify => true
  | _, _ => false
  end.

Definition family_of (lang : gostring) : option Family :=
  if str_eqb lang (s "bash") then Some FBash
  else if str_eqb lang (s "sh") || str_eqb lang (s "shell") then Some FShell
  else if str_eqb lang (s "verify") then Some FVerify
  else None.

(** The shells: [spawn] starts a family's process ([None] when it fails to
    start), [run] is that runner's [Run] ([Some] message on error). *)
Variable RS : Type.
Variable spawn : Family -> RS -> option RS.
Variable run : Family -> RS -> gostring -> RS * (gostring * option gostring).

(** Everything the code-block interaction reads and changes: the text
    written to [w] (one entry per write), the operator, the process
    environment, the families whose singleton is set, and the shells. *)
Record World := mkWorld {
  out : list gostring;
  operator : PS;
  environ : str_map;
  registry : list Family;
  shells : RS
}.

Definition write (w : World) (x : gostring) : World :=
  mkWorld (out w ++ [x]) (operator w) (environ w) (registry w) (shells w).

(** A call of [promptFunc]. *)
Definition prompt_call (w : World) (msg : gostring) : World * gostring :=
  let '(ps, r) := ask (operator w) msg in
  (mkWorld (out w) ps (environ w) (registry w) (shells w), r).

Definition setenv (w : World) (k v : gostring) : World :=
  mkWorld (out w) (operator w) (map_insert k v (environ w)) (registry w) (shells w).

(** [GetRunner]: the failure to start is only logged. *)
Definition GetRunner (w : World) (lang : gostring) : World * option Family :=
  match family_of lang with
  | None => (w, None)
  | Some f =>
      if existsb (Family_eqb f) (registry w) then (w, Some f)
      else
        match spawn f (shells w) with
        | None => (w, None)
        | Some rs => (mkWorld (out w) (operator w) (environ w) (f :: registry w) rs, Some f)
        end
  end.

(** ** parser.go: the code-block interaction *)

Definition printLines (w : World) (lines : list gostring) : World :=
  fold_left (fun w l => write w (l ++ [10])) lines w.

(** [strings.Split] for a non-empty separator. *)
Fixpoint split_aux (fuel : nat) (sep cur x : gostring) : list gostring :=
  match fuel with
  | O => [rev cur ++ x]
  | S f =>
      match x with
      | [] => [rev cur]
      | c :: x' =>
          match strip_prefix sep x with
          | Some rest => rev cur :: split_aux f sep [] rest
          | None => split_aux f sep (c :: cur) x'
          end
      end
  end.

Definition split (x sep : gostring) : list gostring :=
  split_aux (S (List.length x)) sep [] x.

Definition msg_no_runner : gostring :=
  [10] ++ s "> No runner for this language or missing code fence language. Press Enter to continue: ".
Definition msg_run : gostring :=
  [10] ++ s "> Run code? (r=run, s=skip, x=exit) [default s]: ".
Definition msg_continue : gostring :=
  [10] ++ s "> Continue? (r=rerun, s=continue, x=exit) [default s]: ".

(** The outcome of [processCodeBlock]: its [(err, exit)], or a panic (a
    method call on a nil runner). *)
Inductive cb_result :=
| CBReturn (err : option gostring) (exit : bool)
| CBPanic.

(** [err, exit := processCodeBlock(...); if err != nil { return err, exit }]
    followed by the function's final [return nil, false]. *)
Definition after_recursive_call (r : option (World * cb_result)) : option (World * cb_result) :=
  match r with
  | Some (w, CBReturn (Some e) exit) => Some (w, CBReturn (Some e) exit)
  | Some (w, CBReturn None _) => Some (w, CBReturn None false)
  | other => other
  end.

(** [processCodeBlock]; [fuel] bounds the recursion depth ([None] when it
    runs out). *)
Fixpoint processCodeBlock (fuel : nat) (w : World) (code : list gostring)
    (choice : gostring) : option (World * cb_result) :=
  match fuel with
  | O => None
  | S fuel' =>
  if (List.length code <=? 2)%nat then Some (printLines w code, CBReturn None false) else
  let parts := split (hd [] code) (s "```") in
  let language := if (1 <? List.length parts)%nat then nth 1 parts [] else [] in
  let codeText := join [10] (firstn (List.length code - 2) (tl code)) in
  let '(w, runner) := GetRunner w language in
  let continue_with (w : World) (choice : gostring) : option (World * cb_result) :=
    if str_eqb choice (s "r") then
      match runner with
      | None => Some (w, CBPanic)
      | Some f =>
          let '(rs, (out0, err)) := run f (shells w) codeText in
          let w := mkWorld (out w) (operator w) (environ w) (registry w) rs in
          let w := match err with
                   | Some e => write w ([10] ++ s "> Error: " ++ e)
                   | None => w
                   end in
          let out0 := if str_eqb out0 [] then s "(no output)" ++ [10] else out0 in
          let w := write w ([10] ++ s "> Output: " ++ out0) in
          let '(w, r) := prompt_call w msg_continue in
          let nextChoice := go_to_lower (trim_space r) in
          if str_eqb nextChoice (s "r") then
            after_recursive_call (processCodeBlock fuel' w code (s "r"))
          else if str_eqb nextChoice (s "x") then Some (w, CBReturn None true)
          else if str_eqb nextChoice (s "s") || str_eqb nextChoice [] then
            Some (w, CBReturn None false)
          else after_recursive_call (processCodeBlock fuel' w code (s "r"))
      end
    else if str_eqb choice (s "x") then Some (w, CBReturn None true)
    else if str_eqb choice (s "s") || str_eqb choice [] then
      Some (w, CBReturn None false)
    else after_recursive_call (processCodeBlock fuel' w code []) in
  if str_eqb choice [] then
    match runner with
    | None =>
        let '(w, _) := prompt_call w msg_no_runner in
        Some (w, CBReturn None false)
    | Some _ =>
        let '(w, r) := prompt_call w msg_run in
        continue_with w (go_to_lower (trim_space r))
    end
  else continue_with w choice
  end.

(** ** parser.go: [RunMarkdown] *)

(** [for ok := false; !ok; { kv, err := processPrompt(...) ... }] *)
Fixpoint prompt_section (fuel : nat) (w : World) (lines : list gostring) : option World :=
  match fuel with
  | O => None
  | S f =>
      let '(ps, res) := processPrompt (operator w) lines in
      let w := mkWorld (out w) ps (environ w) (registry w) (shells w) in
      match res with
      | inr e => prompt_section f (write w (prompt_error_string e ++ [10])) lines
      | inl kv => Some (fold_left (fun w kv => setenv w (fst kv) (snd kv)) kv (write w [10]))
      end
  end.

(** The loop over the filtered sections; the result is the error returned,
    or a panic. *)
Inductive rm_result :=
| RMReturn (err : option gostring)
| RMPanic.

Fixpoint run_sections (fuel : nat) (w : World) (secs : list Section)
    : option (World * rm_result) :=
  match secs with
  | [] => Some (write w ([10] ++ s "> README complete!" ++ [10]), RMReturn None)
  | sec :: rest =>
      match SecType sec with
      | SectionCode =>
          let w := write w (join [10] (Lines sec) ++ [10]) in
          match processCodeBlock fuel w (Lines sec) [] with
          | None => None
          | Some (w, CBPanic) => Some (w, RMPanic)
          | Some (w, CBReturn (Some e) _) => Some (w, RMReturn (Some e))
          | Some (w, CBReturn None true) => Some (w, RMReturn None)
          | Some (w, CBReturn None false) => run_sections fuel w rest
          end
      | SectionPrompt =>
          match prompt_section fuel w (Lines sec) with
          | None => None
          | Some w => run_sections fuel w rest
          end
      | SectionHeader =>
          let w := write w (join [10] (Lines sec) ++ [10]) in
          match rest with
          | next :: _ =>
              if SectionType_eqb (SecType next) SectionHeader then
                let nextHeaderText := fst (getHeadingText (hd [] (Lines next))) in
                let promptMsg := [10] ++ s "> Press Enter to continue to [" ++ nextHeaderText
                                 ++ s "] (or type 'exit'): " in
                let '(w, r) := prompt_call w promptMsg in
                if str_eqb (go_to_lower r) (s "exit") then Some (w, RMReturn None)
                else run_sections fuel (write w [10]) rest
              else run_sections fuel w rest
          | [] => run_sections fuel w rest
          end
      | SectionText =>
          run_sections fuel (write w (join [10] (Lines sec) ++ [10])) rest
      | SectionUnknown => run_sections fuel w rest
      end
  end.

Definition RunMarkdown (fuel : nat) (w : World) (doc : list gostring) (startAnchor : gostring)
    (tags : list gostring) : option (World * rm_result) :=
  run_sections fuel w (parseSections doc startAnchor tags).

(** ** parser.go: [PrintTOC] *)

(** [strings.Repeat]; [None] when the count is negative (Go panics). *)
Definition repeat_str (x : gostring) (count : Z) : option gostring :=
  if count <? 0 then None else Some (List.concat (List.repeat x (Z.to_nat count))).

(** The loop of [PrintTOC] over the sections: the lines written to [w], or
    [None] for a panic. *)
Fixpoint PrintTOC_loop (w : list gostring) (secs : list Section) : option (list gostring) :=
  match secs with
  | [] => Some w
  | sec :: rest =>
      if SectionType_eqb (SecType sec) SectionHeader then
        let '(header, level) := getHeadingText (hd [] (Lines sec)) in
        let anchor := normalizeAnchor header in
        match repeat_str (s "  ") (Z.of_nat level - 1) with
        | None => None
        | Some indent =>
            PrintTOC_loop
              (w ++ [indent ++ s "- " ++ header ++ s " (" ++ anchor ++ s ")" ++ [10]]) rest
        end
      else PrintTOC_loop w rest
  end.

(** The sections for which [PrintTOC] writes a line. *)
Definition is_header_sec (sec : Section) : bool := SectionType_eqb (SecType sec) SectionHeader.

(** [PrintTOC]; its error result is always nil. *)
Definition PrintTOC (doc : list gostring) : option (list gostring) :=
  PrintTOC_loop [] (parseSections doc [] []).

(** ** runner.go: [runnerIO.Run], the bash and sh runners *)

(** The text written to the shell's stdin. *)
Definition runnerIO_command (code : gostring) : gostring :=
  code ++ [10] ++ s "echo " ++ marker ++ [10].

(** [runnerIO.Run]: [write_ok] is the outcome of [r.stdin.Write] and
    [stream] the lines the scanner then reads (a read error of the scanner
    is not modelled); the result is the lines left unread and the returned
    output or error. *)
Definition runnerIO_Run (write_ok : bool) (stream : list gostring)
    : list gostring * (gostring + run_error) :=
  if negb write_ok then (stream, inr ErrWrite) else
  let '(output, rest) := read_until_marker stream in
  (rest, inl (List.concat (map (fun l => l ++ [10]) output))).

(** The language [processCodeBlock] reads off the opening fence. *)
Definition code_language (code : list gostring) : gostring :=
  let parts := split (hd [] code) (s "```") in
  if (1 <? List.length parts)%nat then nth 1 parts [] else [].

(** A line the first pass of [parseSections] reads as a tags directive. *)
Definition is_tags_line (l : gostring) : bool :=
  has_prefix (s "[tags]:#") (trim_space l).

(** ** Fence lines, for stating the shape of code sections *)

Definition is_fence (l : gostring) : bool := has_prefix codeFence (trim_space l).

Definition count_fences (doc : list gostring) : nat := List.length (filter is_fence doc).

(** A code section opened by a fence line. *)
Definition code_opened (c : Section) : Prop :=
  SecType c = SectionCode ->
  exists first rest, Lines c = first :: rest /\ is_fence first = true.

(** A code section opened and closed by fence lines. *)
Definition code_closed (c : Section) : Prop :=
  SecType c = SectionCode ->
  exists first mid last, Lines c = first :: mid ++ [last]
    /\ is_fence first = true /\ is_fence last = true.

(** The invariant of the first pass of [parseSections]. *)
Definition seg_inv (st : ParseState) : Prop :=
  Forall code_closed (sections st) /\
  (if inCodeBlock st then
     SecType (current st) = SectionCode /\
     exists first rest, Lines (current st) = first :: rest /\ is_fence first = true
   else SecType (current st) <> SectionCode).

(** The shape of a section of the first pass: at least one line, a header
    line first in a Header section, a single prompt line in a Prompt
    section, and never the type Unknown. *)
Definition sec_shape (sec : Section) : Prop :=
  Lines sec <> [] /\
  (SecType sec = SectionHeader -> has_prefix (s "#") (trim_space (hd [] (Lines sec))) = true) /\
  (SecType sec = SectionPrompt ->
   exists l, Lines sec = [l] /\ has_prefix (s "[prompt]:#") (trim_space l) = true) /\
  SecType sec <> SectionUnknown.

(** The shape of the section being accumulated. *)
Definition cur_shape (cur : Section) : Prop :=
  SecType cur <> SectionPrompt /\ SecType cur <> SectionUnknown /\
  (SecType cur = SectionHeader ->
   exists l rest, Lines cur = l :: rest /\ has_prefix (s "#") (trim_space l) = true).

Definition header_anchor (sec : Section) : gostring :=
  normalizeAnchor (fst (getHeadingText (hd [] (Lines sec)))).

End Readmerunner.

(** The example document of the specification (section 8, item 7). *)
Definition spec_doc : list gostring := [
  s "# Title"; s "[tags]:# (always)"; s "some content"; [];
  s "## Section One"; s "[tags]:# (foo bar)"; s "```bash";
  s "echo " ++ [34] ++ s "Hello, world!" ++ [34]; s "```";
  s "### Subsection"; s "[tags]:# (bar)";
  s "[prompt]:# (name " ++ [34] ++ s "What is your name?" ++ [34] ++ s ")"].




(** ** Concrete inputs *)

(** The document of the repository's parser test ([parser_test.go]). *)
Definition test_doc : list gostring := [
  s "# Title"; s "[tags]:# (always)"; s "some content"; [];
  s "## Section One"; []; s "[tags]:# (foo bar)"; []; s "```bash";
  s "echo " ++ [34] ++ s "Hello, world!" ++ [34]; s "```"; [];
  s "### Subsection"; []; s "[tags]:# (bar)";
  s "[prompt]:# (name " ++ [34] ++ s "What is your name?" ++ [34] ++ s ")"].

(** The scripted operator of the tests ([fakePrompt]): the next response,
    the empty string once they run out. *)
Definition fakePrompt (ps : list gostring) (_ : gostring) : list gostring * gostring :=
  match ps with [] => ([], []) | r :: rs => (rs, r) end.

(** A shell that starts and prints [hi] for every snippet; its state counts
    the snippets run. *)
Definition echo_spawn (_ : Family) (n : nat) : option nat := Some n.
Definition echo_run (_ : Family) (n : nat) (_ : gostring) : nat * (gostring * option gostring) :=
  (S n, (s "hi" ++ [10], None)).

Definition world0 (responses : list gostring) : World (list gostring) nat :=
  mkWorld _ _ [] responses [] [] O.

Definition code_then_text : list gostring := [s "```bash"; s "echo hi"; s "```"; s "after"].

(** The code section of [spec_doc]. *)
Definition spec_code_section : Section :=
  mkSection SectionCode
    [s "```bash"; s "echo " ++ [34] ++ s "Hello, world!" ++ [34]; s "```"]
    [s "foo"; s "bar"].

(** A prompt with options and a default, as in the repository's tests. *)
Definition alice_bob_line : gostring :=
  s "[prompt]:# (name " ++ [34] ++ s "What is your name?" ++ [34] ++ s " [Alice Bob] Alice)".

Definition alice_bob_prompt : Prompt :=
  mkPrompt (s "name") (s "What is your name?") [s "Alice"; s "Bob"] (s "Alice").

(** Sections shared by the example documents. *)
Definition name_prompt_line : gostring :=
  s "[prompt]:# (name " ++ [34] ++ s "What is your name?" ++ [34] ++ s ")".

Definition title_section : Section :=
  mkSection SectionHeader [s "# Title"; s "some content"; []] [s "always"].

Definition subsection_header : Section :=
  mkSection SectionHeader [s "### Subsection"] [s "bar"].

Definition name_prompt_section : Section :=
  mkSection SectionPrompt [name_prompt_line] [s "bar"].

(** * Proofs *)

Section Proofs.

Variable U : UnicodeTables.

(** ** The filtering pass *)

Ltac split_filter_call :=
  match goal with
  | |- context [filter_sections ?u ?a ?b ?c ?d] =>
      match d with
      | _ :: _ => fail 1
      | _ => destruct (filter_sections u a b c d) as [fin o] eqn:Efilter
      end
  end.

Lemma filter_sections_incl start userTags :
  forall secs b x, In x (snd (filter_sections U start userTags b secs)) -> In x secs.
Proof.
  induction secs as [|sec rest IH]; intros b x H; [exact H|].
  revert H. cbn [filter_sections]. split_filter_call. cbn [snd].
  specialize (IH (started_after U start b sec) x). rewrite Efilter in IH.
  destruct (keep_section userTags _ sec); [intros [<-|H]|intro H]; simpl; auto.
Qed.

Lemma filter_sections_always start userTags :
  forall secs b x, In x secs -> checkForAlwaysTag (Tags x) = true ->
  In x (snd (filter_sections U start userTags b secs)).
Proof.
  induction secs as [|sec rest IH]; intros b x Hin Ha; [destruct Hin|].
  cbn [filter_sections]. split_filter_call. cbn [snd].
  destruct Hin as [<-|Hin].
  - unfold keep_section. rewrite Ha. left. reflexivity.
  - specialize (IH (started_after U start b sec) x Hin Ha). rewrite Efilter in IH.
    destruct (keep_section userTags _ sec); simpl; auto.
Qed.

Lemma filter_sections_started_true start userTags :
  forall secs b,
  (b = true \/ exists h, In h secs /\ SecType h = SectionHeader /\ header_anchor U h = start) ->
  fst (filter_sections U start userTags b secs) = true.
Proof.
  induction secs as [|sec rest IH]; intros b H.
  - destruct H as [H|[h [[] _]]]. exact H.
  - cbn [filter_sections]. split_filter_call. cbn [fst].
    specialize (IH (started_after U start b sec)). rewrite Efilter in IH. apply IH.
    unfold started_after.
    destruct H as [->|[h [[<-|Hin] [Hh Ha]]]].
    + left. reflexivity.
    + left. rewrite Hh. destruct b; [reflexivity|]. cbn [negb andb SectionType_eqb].
      unfold header_anchor in Ha. rewrite Ha.
      unfold str_eqb. destruct (list_eq_dec Z.eq_dec start start); congruence.
    + right. exists h. auto.
Qed.

Lemma filter_sections_started_false start userTags :
  forall secs,
  (forall h, In h secs -> SecType h = SectionHeader -> header_anchor U h <> start) ->
  fst (filter_sections U start userTags false secs) = false.
Proof.
  induction secs as [|sec rest IH]; intros H; [reflexivity|].
  cbn [filter_sections].
  assert (Hs : started_after U start false sec = false).
  { unfold started_after. destruct (SecType sec) eqn:Et; try reflexivity. simpl.
    unfold str_eqb. destruct (list_eq_dec Z.eq_dec _ start) as [E|]; [|reflexivity].
    exfalso. apply (H sec (or_introl eq_refl) Et). exact E. }
  rewrite Hs. split_filter_call. cbn [fst].
  change fin with (fst (fin, o)). apply IH. intros h Hin. apply H. right. exact Hin.
Qed.

Lemma parseSections_incl doc start userTags x :
  In x (parseSections U doc start userTags) -> In x (segment U doc).
Proof.
  unfold parseSections.
  pose proof (filter_sections_incl start userTags (segment U doc) (str_eqb start []) x) as H.
  destruct (filter_sections U start userTags (str_eqb start []) (segment U doc)) as [st fl].
  destruct st; [exact H|intros []].
Qed.

(** ** The segmentation pass *)

Lemma tags_prefix_not_fence t :
  has_prefix (s "[tags]:#") t = true -> has_prefix codeFence t = false.
Proof.
  destruct t as [|c t]; [discriminate|]. cbn.
  intro H. apply andb_true_iff in H as [H _]. apply Z.eqb_eq in H. subst c. reflexivity.
Qed.

Lemma scan_line_inCodeBlock st line :
  inCodeBlock (scan_line U st line) = xorb (inCodeBlock st) (is_fence U line).
Proof.
  unfold scan_line, is_fence.
  destruct (has_prefix (s "[tags]:#") (trim_space U line)) eqn:Et.
  - rewrite (tags_prefix_not_fence _ Et), xorb_false_r.
    destruct (parseTags U _); reflexivity.
  - destruct (inCodeBlock st), (has_prefix codeFence (trim_space U line));
      cbn [inCodeBlock xorb]; try reflexivity.
    destruct (has_prefix (s "#") _); [reflexivity|].
    destruct (has_prefix (s "[prompt]:#") _); reflexivity.
Qed.

Lemma fold_inCodeBlock doc :
  forall st, inCodeBlock (fold_left (scan_line U) doc st)
             = xorb (inCodeBlock st) (Nat.odd (count_fences U doc)).
Proof.
  induction doc as [|l doc IH]; intro st; cbn [fold_left].
  - rewrite xorb_false_r. reflexivity.
  - rewrite IH, scan_line_inCodeBlock. unfold count_fences. cbn [filter].
    destruct (is_fence U l); cbn [List.length xorb].
    + rewrite Nat.odd_succ, <- Nat.negb_odd.
      destruct (inCodeBlock st), (Nat.odd _); reflexivity.
    + destruct (inCodeBlock st); reflexivity.
Qed.

Lemma flush_closed secs cur :
  Forall (code_closed U) secs -> SecType cur <> SectionCode ->
  Forall (code_closed U) (flush secs cur).
Proof.
  intros H Hc. unfold flush. destruct (Lines cur); [exact H|].
  apply Forall_app. split; [exact H|].
  constructor; [intro E; contradiction|constructor].
Qed.

Lemma scan_line_seg_inv st line : seg_inv U st -> seg_inv U (scan_line U st line).
Proof.
  destruct st as [secs cur pend inc]. intros [Hsecs Hcur].
  cbn [sections current pendingTags inCodeBlock] in *. unfold scan_line.
  cbn [sections current pendingTags inCodeBlock].
  destruct (has_prefix (s "[tags]:#") (trim_space U line)) eqn:Et.
  { destruct (parseTags U _) as [tags|]; [|split; assumption].
    split; [exact Hsecs|]. exact Hcur. }
  destruct inc.
  - destruct Hcur as [Hty [first [rest [Hl Hf]]]].
    destruct (has_prefix codeFence (trim_space U line)) eqn:Ef.
    + split; cbn [sections current inCodeBlock SecType].
      * apply Forall_app. split; [exact Hsecs|]. constructor; [|constructor].
        intros _. exists first, rest, line. unfold append_line. cbn [Lines].
        rewrite Hl. auto.
      * discriminate.
    + split; [exact Hsecs|]. cbn [current inCodeBlock]. unfold append_line.
      cbn [SecType Lines]. split; [exact Hty|].
      exists first, (rest ++ [line]). rewrite Hl. auto.
  - destruct (has_prefix codeFence (trim_space U line)) eqn:Ef.
    + split; [apply flush_closed; assumption|]. cbn.
      split; [reflexivity|]. exists line, []. auto.
    + destruct (has_prefix (s "#") (trim_space U line)).
      { split; [apply flush_closed; assumption|]. cbn. discriminate. }
      destruct (has_prefix (s "[prompt]:#") (trim_space U line)).
      { split; [|cbn; discriminate]. cbn [sections].
        apply Forall_app. split; [apply flush_closed; assumption|].
        constructor; [cbn; discriminate|constructor]. }
      split; [exact Hsecs|]. exact Hcur.
Qed.

Lemma fold_seg_inv doc : forall st, seg_inv U st -> seg_inv U (fold_left (scan_line U) doc st).
Proof.
  induction doc as [|l doc IH]; intros st H; [exact H|].
  apply IH, scan_line_seg_inv, H.
Qed.

Lemma initial_seg_inv : seg_inv U initial_state.
Proof. split; [constructor|]. cbn. discriminate. Qed.

Lemma fold_open_block doc :
  inCodeBlock (fold_left (scan_line U) doc initial_state) = true ->
  exists dpre l dpost, doc = dpre ++ l :: dpost /\ is_fence U l = true /\
    Forall (fun x => is_fence U x = false) dpost /\
    Lines (current (fold_left (scan_line U) doc initial_state))
    = l :: filter (fun x => negb (is_tags_line U x)) dpost.
Proof.
  induction doc as [|x doc IH] using rev_ind; [discriminate|].
  rewrite fold_left_app. cbn [fold_left].
  set (st := fold_left (scan_line U) doc initial_state) in *.
  unfold scan_line.
  destruct (has_prefix (s "[tags]:#") (trim_space U x)) eqn:Et.
  - assert (Hf : is_fence U x = false) by exact (tags_prefix_not_fence _ Et).
    assert (Hx : is_tags_line U x = true) by exact Et.
    intro Hc.
    assert (Hc' : inCodeBlock st = true) by (destruct (parseTags U _); exact Hc).
    destruct (IH Hc') as [dpre [l [dpost [Hd [Hl [Hp HL]]]]]].
    exists dpre, l, (dpost ++ [x]).
    split; [rewrite Hd, <- app_assoc; reflexivity|].
    split; [exact Hl|].
    split; [apply Forall_app; split; [exact Hp|constructor; [exact Hf|constructor]]|].
    rewrite filter_app. cbn [filter]. rewrite Hx. cbn [negb]. rewrite app_nil_r, <- HL.
    destruct (parseTags U _); reflexivity.
  - assert (Hx : is_tags_line U x = false) by exact Et.
    destruct (inCodeBlock st) eqn:Ei.
    + destruct (has_prefix codeFence (trim_space U x)) eqn:Ef; cbn [inCodeBlock];
        [discriminate|intros _].
      destruct (IH eq_refl) as [dpre [l [dpost [Hd [Hl [Hp HL]]]]]].
      exists dpre, l, (dpost ++ [x]).
      split; [rewrite Hd, <- app_assoc; reflexivity|].
      split; [exact Hl|].
      split; [apply Forall_app; split; [exact Hp|constructor; [exact Ef|constructor]]|].
      cbn [current]. unfold append_line. cbn [Lines].
      rewrite HL, filter_app. cbn [filter]. rewrite Hx. reflexivity.
    + destruct (has_prefix codeFence (trim_space U x)) eqn:Ef.
      * intros _. exists doc, x, []. split; [reflexivity|].
        split; [exact Ef|]. split; [constructor|reflexivity].
      * destruct (has_prefix (s "#") (trim_space U x));
          [discriminate|].
        destruct (has_prefix (s "[prompt]:#") (trim_space U x)); discriminate.
Qed.

Lemma closed_opened c : code_closed U c -> code_opened U c.
Proof.
  intros H Hc. destruct (H Hc) as [first [mid [last [Hl [Hf _]]]]].
  exists first, (mid ++ [last]). auto.
Qed.

Lemma flush_in secs cur c : In c (flush secs cur) -> In c secs \/ c = cur.
Proof.
  unfold flush. destruct (Lines cur); [auto|].
  intro H. apply in_app_or in H as [H|[<-|[]]]; auto.
Qed.

Lemma segment_opened doc c : In c (segment U doc) -> code_opened U c.
Proof.
  unfold segment. pose proof (fold_seg_inv doc _ initial_seg_inv) as [Hsecs Hcur].
  set (st := fold_left (scan_line U) doc initial_state) in *.
  rewrite Forall_forall in Hsecs.
  intro Hin. apply flush_in in Hin as [Hin| ->].
  - apply closed_opened, Hsecs, Hin.
  - destruct (inCodeBlock st).
    + intros _. exact (proj2 Hcur).
    + intro Hc. contradiction.
Qed.

Lemma segment_closed doc c :
  Nat.even (count_fences U doc) = true -> In c (segment U doc) -> code_closed U c.
Proof.
  intros Hev. unfold segment. pose proof (fold_seg_inv doc _ initial_seg_inv) as [Hsecs Hcur].
  pose proof (fold_inCodeBlock doc initial_state) as Hinc.
  set (st := fold_left (scan_line U) doc initial_state) in *.
  rewrite <- Nat.negb_even, Hev in Hinc. cbn in Hinc. rewrite Hinc in Hcur.
  rewrite Forall_forall in Hsecs.
  intro Hin. apply flush_in in Hin as [Hin| ->]; [apply Hsecs, Hin|].
  intro Hc. contradiction.
Qed.

(** ** Claims about [parseSections] *)

(** C1 (as amended): a section carrying the reserved tag [always] is in the
    result of [parseSections] whenever filtering has started, that is when
    the start anchor is empty or some header section's normalized anchor
    equals it; whatever the requested tags. *)
Theorem parseSections_always_once_started (doc : list gostring) (start : gostring)
    (userTags : list gostring) (sec : Section)
    (Hin : In sec (segment U doc))
    (Halways : checkForAlwaysTag (Tags sec) = true)
    (Hstarted : start = [] \/
       exists h, In h (segment U doc) /\ SecType h = SectionHeader /\ header_anchor U h = start) :
  In sec (parseSections U doc start userTags).
Proof.
  unfold parseSections.
  pose proof (filter_sections_always start userTags (segment U doc) (str_eqb start []) sec Hin Halways) as A.
  pose proof (filter_sections_started_true start userTags (segment U doc) (str_eqb start [])) as B.
  destruct (filter_sections U start userTags (str_eqb start []) (segment U doc)) as [st fl].
  cbn [fst snd] in A, B. rewrite B; [exact A|].
  destruct Hstarted as [->|Hh]; [left; reflexivity|right; exact Hh].
Qed.

(** C2: when the start anchor is non-empty and no header section's
    normalized anchor equals it, [parseSections] returns the empty
    sequence (it has no error result). *)
Theorem parseSections_unmatched_anchor_empty (doc : list gostring) (start : gostring)
    (userTags : list gostring)
    (Hne : start <> [])
    (Hnone : forall h, In h (segment U doc) -> SecType h = SectionHeader ->
             header_anchor U h <> start) :
  parseSections U doc start userTags = [].
Proof.
  unfold parseSections.
  assert (E : str_eqb start [] = false).
  { unfold str_eqb. destruct (list_eq_dec Z.eq_dec start []); congruence. }
  rewrite E.
  pose proof (filter_sections_started_false start userTags (segment U doc) Hnone) as F.
  destruct (filter_sections U start userTags false (segment U doc)) as [st fl].
  cbn [fst] in F. rewrite F. reflexivity.
Qed.

(** C4 (as amended): every Code section in the result of [parseSections]
    starts with a fence line.  It also ends with a fence line, unless it is
    a block still open when the input ends: that section is the last one of
    the first pass, the number of fence lines is odd, and its lines are the
    last fence line followed by every later line except the tags
    directives, none of them a fence. *)
Theorem parseSections_code_fences (doc : list gostring) (start : gostring)
    (userTags : list gostring) (c : Section)
    (Hin : In c (parseSections U doc start userTags))
    (Hcode : SecType c = SectionCode) :
  (exists first rest, Lines c = first :: rest /\ is_fence U first = true) /\
  ((exists first mid last, Lines c = first :: mid ++ [last]
      /\ is_fence U first = true /\ is_fence U last = true) \/
   ((exists secs, segment U doc = secs ++ [c]) /\
    Nat.odd (count_fences U doc) = true /\
    exists dpre l dpost, doc = dpre ++ l :: dpost /\ is_fence U l = true /\
      Forall (fun x => is_fence U x = false) dpost /\
      Lines c = l :: filter (fun x => negb (is_tags_line U x)) dpost)).
Proof.
  apply parseSections_incl in Hin. split; [exact (segment_opened doc c Hin Hcode)|].
  pose proof (fold_seg_inv doc _ initial_seg_inv) as [Hsecs Hcur].
  pose proof (fold_inCodeBlock doc initial_state) as Hinc.
  pose proof (fold_open_block doc) as Hopen.
  unfold segment in Hin |- *.
  set (st := fold_left (scan_line U) doc initial_state) in *.
  rewrite Forall_forall in Hsecs.
  apply flush_in in Hin as [Hin| ->]; [left; exact (Hsecs c Hin Hcode)|].
  destruct (inCodeBlock st) eqn:Ei; [|contradiction].
  right. destruct (Hopen eq_refl) as [dpre [l [dpost [Hd [Hl [Hp HL]]]]]].
  split; [exists (sections st); unfold flush; rewrite HL; reflexivity|].
  split; [|exists dpre, l, dpost; auto].
  cbn [inCodeBlock initial_state xorb] in Hinc. symmetry. exact Hinc.
Qed.

(** ** Anchors *)

Lemma collapse_dashes_idem : forall x b,
  collapse_dashes b (collapse_dashes b x) = collapse_dashes b x.
Proof.
  induction x as [|c x IH]; intro b; [reflexivity|].
  cbn [collapse_dashes]. destruct (Z.eqb_spec c 45) as [->|E].
  - destruct b; simpl; rewrite IH; reflexivity.
  - cbn [collapse_dashes]. destruct (Z.eqb_spec c 45); [contradiction|].
    f_equal. apply IH.
Qed.

Lemma collapse_dashes_incl : forall x b c, In c (collapse_dashes b x) -> In c x.
Proof.
  induction x as [|d x IH]; intros b c H; [exact H|].
  cbn [collapse_dashes] in H.
  destruct (Z.eqb_spec d 45) as [->|_].
  - destruct b.
    + right. eapply IH. exact H.
    + destruct H as [<-|H]; [left; reflexivity|right; eapply IH; exact H].
  - destruct H as [<-|H]; [left; reflexivity|right; eapply IH; exact H].
Qed.

Lemma filter_all (p : Z -> bool) (l : gostring) :
  (forall c, In c l -> p c = true) -> filter p l = l.
Proof.
  induction l as [|c l IH]; intro H; [reflexivity|].
  cbn [filter]. rewrite (H c (or_introl eq_refl)). f_equal.
  apply IH. intros d Hd. apply H. right. exact Hd.
Qed.

Lemma keep_anchor_rune_dash : keep_anchor_rune U 45 = true.
Proof.
  unfold keep_anchor_rune. replace (Z.eqb 45 45) with true by reflexivity.
  apply orb_true_r.
Qed.

(** C9: [normalizeAnchor] is idempotent.  The two hypotheses are facts of
    Go's Unicode tables: [unicode.ToLower] is idempotent and leaves the
    hyphen unchanged. *)
Theorem normalizeAnchor_idempotent (H : gostring)
    (Hlower : forall r, to_lower U (to_lower U r) = to_lower U r)
    (Hdash : to_lower U 45 = 45) :
  normalizeAnchor U (normalizeAnchor U H) = normalizeAnchor U H.
Proof.
  set (y := normalizeAnchor U H).
  assert (Hy : forall c, In c y ->
            to_lower U c = c /\ keep_anchor_rune U c = true /\ c <> 32).
  { intros c Hc. unfold y, normalizeAnchor in Hc. apply collapse_dashes_incl in Hc.
    apply in_map_iff in Hc as [d [Hd Hin]]. apply filter_In in Hin as [Hin Hk].
    unfold go_to_lower in Hin. apply in_map_iff in Hin as [r [<- _]].
    revert Hd. destruct (Z.eqb_spec (to_lower U r) 32) as [E|E]; intros <-.
    - split; [exact Hdash|]. split; [exact keep_anchor_rune_dash|discriminate].
    - split; [apply Hlower|]. split; [exact Hk|exact E]. }
  unfold normalizeAnchor at 1, go_to_lower.
  rewrite (map_ext_in _ id y) by (intros c Hc; apply (Hy c Hc)). rewrite map_id.
  rewrite filter_all by (intros c Hc; apply (Hy c Hc)).
  rewrite (map_ext_in _ id y).
  2:{ intros c Hc. destruct (Z.eqb_spec c 32) as [E|E]; [|reflexivity].
      exfalso. exact (proj2 (proj2 (Hy c Hc)) E). }
  rewrite map_id. unfold y, normalizeAnchor. apply collapse_dashes_idem.
Qed.

(** ** Prompts *)

Variable PS : Type.
Variable ask : PS -> gostring -> PS * gostring.

Lemma str_eqb_spec a b : reflect (a = b) (str_eqb a b).
Proof. unfold str_eqb. destruct (list_eq_dec Z.eq_dec a b); constructor; assumption. Qed.

Lemma existsb_str_eqb x l : existsb (str_eqb x) l = true <-> In x l.
Proof.
  rewrite existsb_exists. split.
  - intros [y [Hy E]]. destruct (str_eqb_spec x y); [subst; exact Hy|discriminate].
  - intro H. exists x. split; [exact H|]. destruct (str_eqb_spec x x); congruence.
Qed.

(** C7: for one prompt line, an empty response is replaced by the default
    when there is one; with a non-empty option list [processPrompt] fails
    with the validation error exactly when the resolved response is not an
    option; otherwise it maps the variable name to the resolved response. *)
Theorem processPrompt_resolution (ps : PS) (line : gostring) (pd : Prompt)
    (ps' : PS) (response : gostring)
    (Hprefix : has_prefix (s "[prompt]:#") (trim_space U line) = true)
    (Hparse : parsePrompt U (trim_space U line) = Some pd)
    (Hask : ask ps (prompt_message pd) = (ps', response)) :
  let resolved :=
    if str_eqb response [] && negb (str_eqb (Default pd) []) then Default pd
    else response in
  (Options pd <> [] -> ~ In resolved (Options pd) ->
   processPrompt U PS ask ps [line]
   = (ps', inr (ErrInvalidResponse (VarName pd) (Options pd)))) /\
  (Options pd = [] \/ In resolved (Options pd) ->
   processPrompt U PS ask ps [line] = (ps', inl [(VarName pd, resolved)])).
Proof.
  intro resolved.
  unfold processPrompt. cbn [processPrompt_loop].
  rewrite Hprefix, Hparse, Hask. fold resolved.
  destruct (Options pd) as [|o opts] eqn:Eo.
  - split; [intros H; contradiction|]. intros _. reflexivity.
  - destruct (existsb (str_eqb resolved) (o :: opts)) eqn:Ex.
    + apply existsb_str_eqb in Ex. split; [intros _ Hn; contradiction|].
      intros _. reflexivity.
    + split; [intros _ _; reflexivity|]. intros [H|H]; [discriminate|].
      apply existsb_str_eqb in H. congruence.
Qed.

(** ** The verify runner *)

Lemma read_until_marker_app pre rest :
  ~ In marker pre -> read_until_marker (pre ++ marker :: rest) = (pre, rest).
Proof.
  induction pre as [|l pre IH]; intro H.
  - cbn [app read_until_marker]. destruct (str_eqb_spec marker marker); congruence.
  - cbn [app read_until_marker]. destruct (str_eqb_spec l marker) as [E|E].
    + exfalso. apply H. left. exact E.
    + rewrite IH; [reflexivity|]. intro Hin. apply H. right. exact Hin.
Qed.

Lemma read_until_marker_head rest :
  read_until_marker (marker :: rest) = ([], rest).
Proof. exact (read_until_marker_app [] rest (fun H : In marker [] => H)). Qed.

Lemma read_until_marker_none stream :
  ~ In marker stream -> read_until_marker stream = (stream, []).
Proof.
  induction stream as [|l stream IH]; intro H; [reflexivity|].
  cbn [read_until_marker]. destruct (str_eqb_spec l marker) as [E|E].
  - exfalso. apply H. left. exact E.
  - rewrite IH; [reflexivity|]. intro Hin. apply H. right. exact Hin.
Qed.

(** C6 (as amended): [VerifyRunner.Run] reads the lines before the first
    marker line and discards them: they do not affect the result.  The line
    after the marker must have exactly two fields, the exit marker and an
    integer ([strconv.Atoi]); otherwise, and when the marker or that line
    is missing, [Run] fails.  Status 0 gives the Success string, any other
    status the Failure string with the status written in decimal, both as
    a successful result. *)
Theorem VerifyRunner_Run_verdict (pre : list gostring) (statusLine : gostring)
    (rest : list gostring)
    (Hpre : ~ In marker pre) :
  let result := snd (VerifyRunner_Run U true (pre ++ marker :: statusLine :: rest)) in
  VerifyRunner_Run U true (pre ++ marker :: statusLine :: rest)
  = VerifyRunner_Run U true (marker :: statusLine :: rest) /\
  (forall n, fields U statusLine = [exitMarker; n] -> atoi n = Some 0 ->
   result = inl success_msg) /\
  (forall n code, fields U statusLine = [exitMarker; n] -> atoi n = Some code ->
   code <> 0 -> result = inl (failure_msg code)) /\
  (forall n, fields U statusLine = [exitMarker; n] -> atoi n = None ->
   result = inr (ErrInvalidExitCode n)) /\
  ((forall n, fields U statusLine <> [exitMarker; n]) ->
   result = inr (ErrParseExitCode statusLine)) /\
  snd (VerifyRunner_Run U true (pre ++ [marker])) = inr (ErrParseExitCode []) /\
  snd (VerifyRunner_Run U true pre) = inr (ErrParseExitCode []).
Proof.
  intro result.
  assert (Happ : VerifyRunner_Run U true (pre ++ marker :: statusLine :: rest)
                 = VerifyRunner_Run U true (marker :: statusLine :: rest)).
  { unfold VerifyRunner_Run. cbn [negb].
    rewrite (read_until_marker_app pre _ Hpre).
    rewrite read_until_marker_head.
    reflexivity. }
  assert (Hex : str_eqb exitMarker exitMarker = true).
  { destruct (str_eqb_spec exitMarker exitMarker); congruence. }
  split; [exact Happ|].
  unfold result. rewrite Happ. unfold VerifyRunner_Run. cbn [negb].
  rewrite read_until_marker_head.
  split; [|split; [|split; [|split; [|split]]]].
  - intros n Hf Ha. rewrite Hf, Hex, Ha. reflexivity.
  - intros n code Hf Ha Hc. rewrite Hf, Hex, Ha.
    destruct (Z.eqb_spec code 0); [contradiction|reflexivity].
  - intros n Hf Ha. rewrite Hf, Hex, Ha. reflexivity.
  - intros Hn. destruct (fields U statusLine) as [|p0 [|p1 [|p2 ps]]] eqn:Ef;
      try reflexivity.
    destruct (str_eqb_spec p0 exitMarker) as [->|]; [|reflexivity].
    exfalso. exact (Hn p1 eq_refl).
  - rewrite (read_until_marker_app pre [] Hpre). reflexivity.
  - rewrite (read_until_marker_none pre Hpre). reflexivity.
Qed.

(** ** The code-block interaction *)

Variable RS : Type.
Variable spawn : Family -> RS -> option RS.
Variable run : Family -> RS -> gostring -> RS * (gostring * option gostring).

Lemma printLines_out code : forall w : World PS RS,
  printLines PS RS w code
  = mkWorld _ _ (out _ _ w ++ map (fun l => l ++ [10]) code)
      (operator _ _ w) (environ _ _ w) (registry _ _ w) (shells _ _ w).
Proof.
  induction code as [|l code IH]; intro w.
  - destruct w. cbn. rewrite app_nil_r. reflexivity.
  - unfold printLines in *. cbn [fold_left]. rewrite IH. cbn.
    rewrite <- app_assoc. reflexivity.
Qed.

(** C10: a code section of at most two lines is printed line by line and
    [processCodeBlock] returns no error and no exit, whatever the choice
    passed in; the operator, the environment, the runner registry and the
    shells are untouched, so no prompt is asked and no runner is resolved
    or run. *)
Theorem processCodeBlock_short_block (fuel : nat) (w : World PS RS)
    (code : list gostring) (choice : gostring)
    (Hlen : (List.length code <= 2)%nat) :
  processCodeBlock U PS ask RS spawn run (S fuel) w code choice
  = Some (mkWorld _ _ (out _ _ w ++ map (fun l => l ++ [10]) code)
            (operator _ _ w) (environ _ _ w) (registry _ _ w) (shells _ _ w),
          CBReturn None false).
Proof.
  cbn [processCodeBlock].
  destruct (Nat.leb_spec (List.length code) 2) as [_|H]; [|lia].
  rewrite printLines_out. reflexivity.
Qed.

End Proofs.

(** * Concrete runs *)

(** ** C1 *)

(** A section tagged [always] is dropped when a non-empty start anchor
    matches no header. *)
Lemma parseSections_always_dropped_unmatched_start :
  In (mkSection SectionHeader [s "# Title"] [s "always"])
     (segment ascii_tables [s "# Title"; s "[tags]:# (always)"]) /\
  checkForAlwaysTag [s "always"] = true /\
  parseSections ascii_tables [s "# Title"; s "[tags]:# (always)"] (s "nonexistent") [] = [].
Proof.
  split; [vm_compute; left; reflexivity|].
  split; vm_compute; reflexivity.
Qed.

Lemma parseSections_always_once_started_witness :
  In (mkSection SectionHeader [s "# Title"; s "some content"; []] [s "always"])
     (parseSections ascii_tables spec_doc (s "subsection") [s "baz"]).
Proof.
  apply parseSections_always_once_started.
  - vm_compute. left. reflexivity.
  - reflexivity.
  - right. exists (mkSection SectionHeader [s "### Subsection"] [s "bar"]).
    split; [vm_compute; right; right; right; left; reflexivity|].
    split; reflexivity.
Defined.

(** ** C2 *)

Lemma parseSections_unmatched_anchor_empty_witness :
  parseSections ascii_tables spec_doc (s "nonexistent") [s "foo"] = [].
Proof.
  apply parseSections_unmatched_anchor_empty.
  - discriminate.
  - intros h Hin Hh. vm_compute in Hin.
    repeat (destruct Hin as [<-|Hin]; [vm_compute; try discriminate|]);
      try destruct Hin; vm_compute in Hh; discriminate.
Defined.

(** ** C4 *)

(** A fence left open at the end of the input gives a Code section whose
    last line is not a fence. *)
Lemma parseSections_unclosed_fence :
  parseSections ascii_tables [s "```bash"; s "echo hi"] [] []
  = [mkSection SectionCode [s "```bash"; s "echo hi"] []] /\
  is_fence ascii_tables (s "echo hi") = false.
Proof. split; vm_compute; reflexivity. Qed.

Lemma parseSections_code_fences_witness :
  let doc := [s "```bash"; s "echo hi"; s "[tags]:# (x)"] in
  let c := mkSection SectionCode [s "```bash"; s "echo hi"] [s "x"] in
  (exists first rest, Lines c = first :: rest /\ is_fence ascii_tables first = true) /\
  ((exists first mid last, Lines c = first :: mid ++ [last]
      /\ is_fence ascii_tables first = true /\ is_fence ascii_tables last = true) \/
   ((exists secs, segment ascii_tables doc = secs ++ [c]) /\
    Nat.odd (count_fences ascii_tables doc) = true /\
    exists dpre l dpost, doc = dpre ++ l :: dpost /\ is_fence ascii_tables l = true /\
      Forall (fun x => is_fence ascii_tables x = false) dpost /\
      Lines c = l :: filter (fun x => negb (is_tags_line ascii_tables x)) dpost)).
Proof.
  apply (parseSections_code_fences ascii_tables
           [s "```bash"; s "echo hi"; s "[tags]:# (x)"] [] []
           (mkSection SectionCode [s "```bash"; s "echo hi"] [s "x"])).
  - vm_compute. left. reflexivity.
  - reflexivity.
Defined.

(** ** C5 *)

(** The example document of the specification has no blank line after the
    closing fence: it parses into five sections, not six. *)
Lemma spec_doc_five_sections :
  List.length (parseSections ascii_tables spec_doc [] []) = 5%nat /\
  ~ (exists sec, In sec (parseSections ascii_tables spec_doc [] [])
                 /\ SecType sec = SectionText).
Proof.
  split; [vm_compute; reflexivity|].
  intros [sec [Hin Ht]]. vm_compute in Hin.
  repeat (destruct Hin as [<-|Hin]; [vm_compute in Ht; discriminate|]).
  exact Hin.
Qed.

(** C5 (as amended): the specification's example document parses into the
    title header, the header of section one, the code section, the header of
    the subsection and the prompt; the repository's test document, which has
    a blank line after the closing fence, has an empty Text section with tags
    foo and bar after the code section.  With start anchor subsection both
    keep only the title, the subsection header and its prompt. *)
Theorem parseSections_examples :
  parseSections ascii_tables spec_doc [] [] =
    [title_section;
     mkSection SectionHeader [s "## Section One"] [s "foo"; s "bar"];
     spec_code_section; subsection_header; name_prompt_section] /\
  parseSections ascii_tables spec_doc (s "subsection") [] =
    [title_section; subsection_header; name_prompt_section] /\
  parseSections ascii_tables test_doc [] [] =
    [title_section;
     mkSection SectionHeader [s "## Section One"; []; []] [s "foo"; s "bar"];
     spec_code_section;
     mkSection SectionText [[]] [s "foo"; s "bar"];
     mkSection SectionHeader [s "### Subsection"; []] [s "bar"];
     name_prompt_section] /\
  parseSections ascii_tables test_doc (s "subsection") [] =
    [title_section;
     mkSection SectionHeader [s "### Subsection"; []] [s "bar"];
     name_prompt_section].
Proof. repeat split; vm_compute; reflexivity. Qed.

(** ** C6 *)

(** The lines before the marker are consumed and dropped: the result is only
    the verdict string. *)
Lemma VerifyRunner_Run_discards_output :
  VerifyRunner_Run ascii_tables true [s "hello"; marker; s "__EXIT_CODE__ 0"]
  = ([], inl success_msg) /\
  success_msg <> s "hello" ++ [10].
Proof.
  split; [vm_compute; reflexivity|].
  vm_compute. discriminate.
Qed.

Lemma VerifyRunner_Run_verdict_witness :
  snd (VerifyRunner_Run ascii_tables true
         ([s "hello"] ++ marker :: s "__EXIT_CODE__ 1" :: []))
  = inl (failure_msg 1).
Proof.
  assert (Hpre : ~ In marker [s "hello"]).
  { intros [E|[]]. vm_compute in E. discriminate. }
  destruct (VerifyRunner_Run_verdict ascii_tables [s "hello"]
              (s "__EXIT_CODE__ 1") [] Hpre) as [_ [_ [H3 _]]].
  apply (H3 (s "1") 1); [vm_compute; reflexivity | vm_compute; reflexivity | discriminate].
Defined.

(** ** C7 *)

Lemma processPrompt_resolution_witness :
  processPrompt ascii_tables (list gostring) fakePrompt [[]] [alice_bob_line]
  = ([], inl [(s "name", s "Alice")]).
Proof.
  refine (proj2 (processPrompt_resolution ascii_tables (list gostring) fakePrompt
                   [[]] alice_bob_line alice_bob_prompt [] []
                   ltac:(vm_compute; reflexivity)
                   ltac:(vm_compute; reflexivity)
                   ltac:(vm_compute; reflexivity)) _).
  right. vm_compute. left. reflexivity.
Defined.

(** ** C8 *)

(** C8 (code bug): a tags directive whose parentheses hold only a blank is
    accepted and yields no tag, while the empty directive is refused. *)
Theorem parseTags_blank_content_accepted :
  parseTags ascii_tables (s "[tags]:# ( )") = TagsOk [] /\
  parseTags ascii_tables (s "[tags]:# ()") = TagsErr.
Proof. split; vm_compute; reflexivity. Qed.

(** ** C9 *)

Lemma ascii_to_lower_idempotent r :
  to_lower ascii_tables (to_lower ascii_tables r) = to_lower ascii_tables r.
Proof.
  cbn [to_lower ascii_tables].
  destruct ((65 <=? r) && (r <=? 90)) eqn:E.
  - apply andb_true_iff in E as [E1 E2]. apply Z.leb_le in E1, E2.
    destruct ((65 <=? r + 32) && (r + 32 <=? 90)) eqn:F; [|reflexivity].
    apply andb_true_iff in F as [F1 F2]. apply Z.leb_le in F2. lia.
  - rewrite E. reflexivity.
Qed.

Lemma normalizeAnchor_idempotent_witness :
  normalizeAnchor ascii_tables (normalizeAnchor ascii_tables (s "Hello,  World -- x"))
  = normalizeAnchor ascii_tables (s "Hello,  World -- x").
Proof.
  apply normalizeAnchor_idempotent.
  - exact ascii_to_lower_idempotent.
  - vm_compute. reflexivity.
Defined.

(** ** C10 *)

Lemma processCodeBlock_short_block_witness :
  processCodeBlock ascii_tables (list gostring) fakePrompt nat echo_spawn echo_run
    1 (world0 [s "x"]) [s "```"; s "```"] []
  = Some (mkWorld _ _ [s "```" ++ [10]; s "```" ++ [10]] [s "x"] [] [] O,
          CBReturn None false).
Proof.
  rewrite processCodeBlock_short_block by (cbn; lia).
  reflexivity.
Defined.

(** ** C3 *)

(** C3 (code bug): an exit answered after a rerun is lost.  With the answers
    run, rerun, exit on a bash block, [processCodeBlock] returns no error and
    no exit flag, and [RunMarkdown] goes on to print the following text and
    the completion banner.  An exit answered at the first question is
    honoured. *)
Theorem processCodeBlock_exit_after_rerun_dropped :
  (exists w, processCodeBlock ascii_tables (list gostring) fakePrompt nat echo_spawn
               echo_run 10 (world0 [s "r"; s "r"; s "x"])
               [s "```bash"; s "echo hi"; s "```"] []
             = Some (w, CBReturn None false)
             /\ operator _ _ w = []) /\
  (exists w, RunMarkdown ascii_tables (list gostring) fakePrompt nat echo_spawn
               echo_run 10 (world0 [s "r"; s "r"; s "x"]) code_then_text [] []
             = Some (w, RMReturn None)
             /\ In (s "after" ++ [10]) (out _ _ w)) /\
  (exists w, processCodeBlock ascii_tables (list gostring) fakePrompt nat echo_spawn
               echo_run 10 (world0 [s "x"])
               [s "```bash"; s "echo hi"; s "```"] []
             = Some (w, CBReturn None true)).
Proof.
  split; [|split].
  - eexists. split; [reflexivity|]. reflexivity.
  - eexists. split; [reflexivity|]. vm_compute. auto 20.
  - eexists. reflexivity.
Qed.

(** * Further properties of the code *)

Section Extras.

Variable U : UnicodeTables.

(** [checkSectionTag] accepts a section exactly when no tags are requested,
    or one of its tags is requested or is always. *)
Theorem checkSectionTag_iff (sectionTags runTags : list gostring) :
  checkSectionTag sectionTags runTags = true <->
  runTags = [] \/ exists tag, In tag sectionTags /\ (In tag runTags \/ tag = s "always").
Proof.
  unfold checkSectionTag. destruct runTags as [|r rt].
  - split; [left; reflexivity|reflexivity].
  - rewrite existsb_exists. split.
    + intros [tag [Hin Hex]]. right. exists tag. split; [exact Hin|].
      apply existsb_str_eqb, in_app_or in Hex as [H|[H|[]]]; [left; exact H|right; auto].
    + intros [H|[tag [Hin Hr]]]; [discriminate|].
      exists tag. split; [exact Hin|]. apply existsb_str_eqb, in_or_app.
      destruct Hr as [H| ->]; [left; exact H|right; left; reflexivity].
Qed.

Lemma keep_section_started userTags sec :
  keep_section userTags true sec = checkSectionTag (Tags sec) userTags.
Proof.
  unfold keep_section. destruct (checkForAlwaysTag (Tags sec)) eqn:Ea.
  - symmetry. apply checkSectionTag_iff. destruct userTags as [|u ut]; [left; reflexivity|].
    right. unfold checkForAlwaysTag in Ea. apply existsb_exists in Ea as [t [Hin Ht]].
    exists t. split; [exact Hin|]. right. destruct (str_eqb_spec (s "always") t); congruence.
  - destruct userTags; reflexivity.
Qed.

Lemma filter_sections_from_started start userTags :
  forall secs, filter_sections U start userTags true secs
  = (true, filter (fun sec => checkSectionTag (Tags sec) userTags) secs).
Proof.
  induction secs as [|sec rest IH]; [reflexivity|].
  cbn [filter_sections]. unfold started_after at 1. cbn [negb andb].
  rewrite IH, keep_section_started. reflexivity.
Qed.

Lemma str_eqb_refl x : str_eqb x x = true.
Proof. destruct (str_eqb_spec x x); congruence. Qed.

(** With an empty start anchor every section is a candidate from the start:
    [parseSections] keeps exactly the sections whose tags pass
    [checkSectionTag] against the requested tags. *)
Theorem parseSections_empty_start doc userTags :
  parseSections U doc [] userTags
  = filter (fun sec => checkSectionTag (Tags sec) userTags) (segment U doc).
Proof.
  unfold parseSections. rewrite str_eqb_refl, filter_sections_from_started. reflexivity.
Qed.

Lemma filter_sections_before start userTags :
  forall pre post,
  (forall h, In h pre -> SecType h = SectionHeader -> header_anchor U h <> start) ->
  filter_sections U start userTags false (pre ++ post)
  = let '(fin, o) := filter_sections U start userTags false post in
    (fin, filter (fun sec => checkForAlwaysTag (Tags sec)) pre ++ o).
Proof.
  induction pre as [|sec pre IH]; intros post H.
  - cbn. destruct (filter_sections U start userTags false post); reflexivity.
  - cbn [app filter_sections].
    assert (Hs : started_after U start false sec = false).
    { unfold started_after. destruct (SecType sec) eqn:Et; try reflexivity. cbn [negb andb SectionType_eqb].
      destruct (str_eqb_spec (normalizeAnchor U (fst (getHeadingText U (hd [] (Lines sec))))) start)
        as [E|]; [|reflexivity].
      exfalso. apply (H sec (or_introl eq_refl) Et). exact E. }
    rewrite Hs, IH by (intros h Hin; apply H; right; exact Hin).
    destruct (filter_sections U start userTags false post) as [fin o].
    cbn [filter]. unfold keep_section.
    destruct (checkForAlwaysTag (Tags sec)); reflexivity.
Qed.

(** With a non-empty start anchor matched first by header [h], the sections
    before [h] are kept only when tagged always, and from [h] on every
    section passing [checkSectionTag] is kept. *)
Theorem parseSections_from_anchor doc start userTags pre h post
    (Hne : start <> [])
    (Hseg : segment U doc = pre ++ h :: post)
    (Hh : SecType h = SectionHeader)
    (Ha : header_anchor U h = start)
    (Hpre : forall h', In h' pre -> SecType h' = SectionHeader -> header_anchor U h' <> start) :
  parseSections U doc start userTags
  = filter (fun sec => checkForAlwaysTag (Tags sec)) pre
    ++ filter (fun sec => checkSectionTag (Tags sec) userTags) (h :: post).
Proof.
  unfold parseSections. rewrite Hseg.
  assert (E : str_eqb start [] = false) by (destruct (str_eqb_spec start []); congruence).
  rewrite E, filter_sections_before by exact Hpre.
  cbn [filter_sections].
  assert (Hs : started_after U start false h = true).
  { unfold started_after. rewrite Hh. cbn [negb andb SectionType_eqb].
    unfold header_anchor in Ha. rewrite Ha. apply str_eqb_refl. }
  rewrite Hs, filter_sections_from_started, keep_section_started. reflexivity.
Qed.


Lemma filter_true_id {A} (l : list A) : filter (fun _ => true) l = l.
Proof. induction l as [|x l IH]; [reflexivity|]. cbn. rewrite IH. reflexivity. Qed.

Lemma concat_flush secs cur :
  List.concat (map Lines (flush secs cur)) = List.concat (map Lines secs) ++ Lines cur.
Proof.
  unfold flush. destruct (Lines cur) eqn:E.
  - rewrite app_nil_r. reflexivity.
  - rewrite map_app, concat_app. cbn. rewrite E, app_nil_r. reflexivity.
Qed.

Lemma scan_line_lines st line :
  List.concat (map Lines (sections (scan_line U st line))) ++ Lines (current (scan_line U st line))
  = List.concat (map Lines (sections st)) ++ Lines (current st)
    ++ (if is_tags_line U line then [] else [line]).
Proof.
  unfold scan_line, is_tags_line.
  destruct (has_prefix (s "[tags]:#") (trim_space U line)).
  { destruct (parseTags U _); cbn; rewrite app_nil_r; reflexivity. }
  destruct (inCodeBlock st).
  - destruct (has_prefix codeFence (trim_space U line)); cbn [sections current Lines].
    + rewrite map_app, concat_app. cbn. rewrite !app_nil_r, app_assoc. reflexivity.
    + unfold append_line. cbn [Lines]. rewrite app_assoc. reflexivity.
  - destruct (has_prefix codeFence (trim_space U line)); cbn [sections current Lines].
    { rewrite concat_flush, app_assoc. reflexivity. }
    destruct (has_prefix (s "#") (trim_space U line)); cbn [sections current Lines].
    { rewrite concat_flush, app_assoc. reflexivity. }
    destruct (has_prefix (s "[prompt]:#") (trim_space U line)); cbn [sections current Lines].
    + rewrite map_app, concat_app, concat_flush. cbn. rewrite !app_nil_r, app_assoc.
      reflexivity.
    + unfold append_line. cbn [Lines]. rewrite app_assoc. reflexivity.
Qed.

Lemma fold_lines doc : forall st,
  let st' := fold_left (scan_line U) doc st in
  List.concat (map Lines (sections st')) ++ Lines (current st')
  = List.concat (map Lines (sections st)) ++ Lines (current st)
    ++ filter (fun l => negb (is_tags_line U l)) doc.
Proof.
  induction doc as [|l doc IH]; intro st; cbn [fold_left filter].
  - rewrite !app_nil_r. reflexivity.
  - rewrite IH, app_assoc, scan_line_lines, <- !app_assoc.
    destruct (is_tags_line U l); reflexivity.
Qed.

(** Without start anchor and tags, the lines of the sections, in order, are
    the lines the scanner yields with the tags directives removed: the
    sectioning loses, duplicates or reorders none of the scanned lines. *)
Theorem parseSections_keeps_lines doc :
  List.concat (map Lines (parseSections U doc [] []))
  = filter (fun l => negb (is_tags_line U l)) doc.
Proof.
  unfold parseSections. rewrite str_eqb_refl, filter_sections_from_started.
  cbn [checkSectionTag]. rewrite filter_true_id. unfold segment.
  rewrite concat_flush. apply (fold_lines doc initial_state).
Qed.

Lemma cur_sec_shape cur : cur_shape U cur -> Lines cur <> [] -> sec_shape U cur.
Proof.
  intros [Hp [Hu Hh]] Hne. split; [exact Hne|]. split; [|split; [|exact Hu]].
  - intro E. destruct (Hh E) as [l [rest [-> Hl]]]. exact Hl.
  - intro E. contradiction.
Qed.

Lemma flush_shape secs cur :
  Forall (sec_shape U) secs -> cur_shape U cur -> Forall (sec_shape U) (flush secs cur).
Proof.
  intros H Hc. unfold flush. destruct (Lines cur) eqn:E; [exact H|].
  apply Forall_app. split; [exact H|]. constructor; [|constructor].
  apply cur_sec_shape; [exact Hc|]. rewrite E. discriminate.
Qed.

Lemma append_cur_shape cur line : cur_shape U cur -> cur_shape U (append_line cur line).
Proof.
  intros [Hp [Hu Hh]]. unfold append_line. split; [exact Hp|]. split; [exact Hu|].
  cbn [SecType Lines]. intro E. destruct (Hh E) as [l [rest [-> Hl]]].
  exists l, (rest ++ [line]). auto.
Qed.

Lemma scan_line_shape st line :
  Forall (sec_shape U) (sections st) /\ cur_shape U (current st) ->
  Forall (sec_shape U) (sections (scan_line U st line)) /\ cur_shape U (current (scan_line U st line)).
Proof.
  intros [Hs Hc]. unfold scan_line.
  destruct (has_prefix (s "[tags]:#") (trim_space U line)).
  { destruct (parseTags U _); [|split; assumption].
    split; [exact Hs|]. destruct Hc as [Hp [Hu Hh]]. exact (conj Hp (conj Hu Hh)). }
  destruct (inCodeBlock st).
  - destruct (has_prefix codeFence (trim_space U line)); cbn [sections current].
    + split; [|split; [discriminate|split; [discriminate|discriminate]]].
      apply Forall_app. split; [exact Hs|]. constructor; [|constructor].
      apply cur_sec_shape; [apply append_cur_shape, Hc|].
      unfold append_line. cbn [Lines]. destruct (Lines (current st)); discriminate.
    + split; [exact Hs|]. apply append_cur_shape, Hc.
  - destruct (has_prefix codeFence (trim_space U line)); cbn [sections current].
    { split; [apply flush_shape; assumption|].
      split; [discriminate|split; [discriminate|discriminate]]. }
    destruct (has_prefix (s "#") (trim_space U line)) eqn:Eh; cbn [sections current].
    { split; [apply flush_shape; assumption|].
      split; [discriminate|split; [discriminate|]].
      intros _. exists line, []. auto. }
    destruct (has_prefix (s "[prompt]:#") (trim_space U line)) eqn:Ep; cbn [sections current].
    + split; [|split; [discriminate|split; [discriminate|discriminate]]].
      apply Forall_app. split; [apply flush_shape; assumption|].
      constructor; [|constructor].
      split; [discriminate|]. cbn [SecType]. split; [discriminate|].
      split; [|discriminate]. intros _. exists line. auto.
    + split; [exact Hs|]. apply append_cur_shape, Hc.
Qed.

Lemma fold_shape doc : forall st,
  Forall (sec_shape U) (sections st) /\ cur_shape U (current st) ->
  let st' := fold_left (scan_line U) doc st in
  Forall (sec_shape U) (sections st') /\ cur_shape U (current st').
Proof.
  induction doc as [|l doc IH]; intros st H; [exact H|].
  apply IH, scan_line_shape, H.
Qed.

(** Every section [parseSections] returns has at least one line; a header
    section starts with a trimmed line beginning with '#'; a prompt section
    is the single prompt directive line; no section is of unknown type. *)
Theorem parseSections_section_shape doc start userTags sec
    (Hin : In sec (parseSections U doc start userTags)) :
  Lines sec <> [] /\
  (SecType sec = SectionHeader -> has_prefix (s "#") (trim_space U (hd [] (Lines sec))) = true) /\
  (SecType sec = SectionPrompt ->
   exists l, Lines sec = [l] /\ has_prefix (s "[prompt]:#") (trim_space U l) = true) /\
  SecType sec <> SectionUnknown.
Proof.
  apply parseSections_incl in Hin. unfold segment in Hin.
  destruct (fold_shape doc initial_state) as [Hs Hc].
  { split; [constructor|]. split; [discriminate|split; [discriminate|discriminate]]. }
  pose proof (flush_shape _ _ Hs Hc) as H. rewrite Forall_forall in H.
  exact (H sec Hin).
Qed.

Lemma collapse_dashes_no_double : forall x b,
  (b = true -> hd_error (collapse_dashes b x) <> Some 45) /\
  (forall pre post, collapse_dashes b x <> pre ++ 45 :: 45 :: post).
Proof.
  induction x as [|c x IH]; intro b.
  - split; [discriminate|]. intros pre post E. destruct pre; discriminate.
  - cbn [collapse_dashes]. destruct (Z.eqb_spec c 45) as [->|Hc].
    + destruct b.
      * exact (IH true).
      * split; [discriminate|]. intros pre post E.
        destruct pre as [|p pre].
        -- injection E as E. apply (proj1 (IH true) eq_refl). rewrite E. reflexivity.
        -- injection E as _ E. exact (proj2 (IH true) pre post E).
    + split; [intros _ E; injection E as E; contradiction|].
      intros pre post E. destruct pre as [|p pre].
      * injection E as E _. contradiction.
      * injection E as _ E. exact (proj2 (IH false) pre post E).
Qed.

(** An anchor holds only dashes, letters and digits (no space), and never
    two dashes in a row. *)
Theorem normalizeAnchor_charset (H : gostring) :
  (forall c, In c (normalizeAnchor U H) ->
   c = 45 \/ (c <> 32 /\ (is_letter U c || is_digit U c) = true)) /\
  (forall pre post, normalizeAnchor U H <> pre ++ 45 :: 45 :: post).
Proof.
  unfold normalizeAnchor. split; [|apply collapse_dashes_no_double].
  intros c Hc. apply collapse_dashes_incl in Hc.
  apply in_map_iff in Hc as [r [Er Hr]]. apply filter_In in Hr as [_ Hk].
  subst c. unfold keep_anchor_rune in Hk.
  destruct (Z.eqb_spec r 32) as [E32|Hr32]; [left; reflexivity|].
  destruct (Z.eqb_spec r 45) as [E45|Hr45]; [left; exact E45|].
  right. split; [exact Hr32|].
  rewrite !orb_false_r in Hk. exact Hk.
Qed.

(** ** Tags *)

Lemma fields_aux_words : forall x cur,
  (forall c, In c cur -> is_space U c = false) ->
  Forall (fun t => t <> [] /\ forall c, In c t -> is_space U c = false) (fields_aux U cur x).
Proof.
  induction x as [|c x IH]; intros cur Hcur; cbn [fields_aux].
  - destruct cur as [|d cur]; constructor; [|constructor].
    split; [intro E; apply (f_equal (@List.length Z)) in E; rewrite length_rev in E; discriminate|].
    intros e He. apply Hcur. apply in_rev, He.
  - destruct (is_space U c) eqn:Ec.
    + destruct cur as [|d cur]; [apply IH; intros e []|].
      constructor; [|apply IH; intros e []].
      split; [intro E; apply (f_equal (@List.length Z)) in E; rewrite length_rev in E; discriminate|].
      intros e He. apply Hcur. apply in_rev, He.
    + apply IH. intros e [<-|He]; [exact Ec|apply Hcur, He].
Qed.

(** The tags [parseTags] returns are non-empty and hold no space. *)
Theorem parseTags_words (line : gostring) (tags : list gostring)
    (H : parseTags U line = TagsOk tags) :
  Forall (fun t => t <> [] /\ forall c, In c t -> is_space U c = false) tags.
Proof.
  unfold parseTags in H.
  destruct (strip_prefix (s "[tags]:#") line) as [r0|]; [|discriminate].
  destruct (drop_while re_space r0) as [|c r]; [discriminate|].
  destruct (Z.eq_dec c 40) as [->|Hc].
  2:{ destruct c; try discriminate; destruct p; try discriminate;
      repeat (destruct p; try discriminate); exfalso; apply Hc; reflexivity. }
  destruct (close_paren r) as [[|b body]|]; try discriminate.
  injection H as <-. apply fields_aux_words. intros e [].
Qed.

Lemma strip_prefix_app p x : strip_prefix p (p ++ x) = Some x.
Proof. induction p as [|c p IH]; [reflexivity|]. cbn. rewrite Z.eqb_refl. exact IH. Qed.

Lemma close_paren_app body :
  (forall c, In c body -> c <> 41) -> close_paren (body ++ [41]) = Some body.
Proof.
  induction body as [|c body IH]; intro H; [reflexivity|].
  cbn [app close_paren].
  destruct (Z.eqb_spec c 41) as [E|_]; [exfalso; exact (H c (or_introl eq_refl) E)|].
  rewrite IH; [reflexivity|]. intros d Hd. apply H. right. exact Hd.
Qed.

Lemma fields_aux_app : forall t cur rest,
  (forall c, In c t -> is_space U c = false) ->
  fields_aux U cur (t ++ rest) = fields_aux U (rev t ++ cur) rest.
Proof.
  induction t as [|c t IH]; intros cur rest H; [reflexivity|].
  cbn [app fields_aux]. rewrite (H c (or_introl eq_refl)).
  rewrite IH by (intros d Hd; apply H; right; exact Hd).
  cbn [rev]. rewrite <- app_assoc. reflexivity.
Qed.

Lemma fields_join (Hsp : is_space U 32 = true) : forall tags,
  tags <> [] ->
  Forall (fun t => t <> [] /\ forall c, In c t -> is_space U c = false) tags ->
  fields U (join [32] tags) = tags.
Proof.
  unfold fields. induction tags as [|t ts IH]; intros Hne Hw; [contradiction|].
  inversion Hw as [|? ? [Ht Hc] Hws]; subst.
  destruct ts as [|t2 ts].
  - cbn [join]. rewrite <- (app_nil_r t) at 1. rewrite fields_aux_app by exact Hc.
    rewrite app_nil_r. cbn [fields_aux].
    destruct (rev t) eqn:E; [apply (f_equal (@rev Z)) in E; rewrite rev_involutive in E; contradiction|].
    rewrite <- E, rev_involutive. reflexivity.
  - change (join [32] (t :: t2 :: ts)) with (t ++ [32] ++ join [32] (t2 :: ts)).
    rewrite fields_aux_app by exact Hc. rewrite app_nil_r. cbn [app fields_aux].
    rewrite Hsp.
    destruct (rev t) eqn:E; [apply (f_equal (@rev Z)) in E; rewrite rev_involutive in E; contradiction|].
    rewrite <- E, rev_involutive, IH; [reflexivity|discriminate|exact Hws].
Qed.

(** Writing non-empty tags free of spaces and ')' into a tags directive,
    separated by single spaces, and parsing it back gives the same tags. *)
Theorem parseTags_roundtrip (tags : list gostring)
    (Hsp : is_space U 32 = true)
    (Hne : tags <> [])
    (Hw : Forall (fun t => t <> [] /\
            forallb (fun c => negb (is_space U c) && negb (re_space c) && negb (c =? 41)) t = true)
          tags) :
  parseTags U (s "[tags]:# (" ++ join [32] tags ++ [41]) = TagsOk tags.
Proof.
  assert (Hw' : Forall (fun t => t <> [] /\ forall c, In c t ->
                  is_space U c = false /\ re_space c = false /\ c <> 41) tags).
  { eapply Forall_impl; [|exact Hw]. intros t [Ht Hf]. split; [exact Ht|].
    intros c Hc. rewrite forallb_forall in Hf. specialize (Hf c Hc).
    apply andb_true_iff in Hf as [Hf H41]. apply andb_true_iff in Hf as [Hs Hr].
    apply negb_true_iff in Hs, Hr, H41. apply Z.eqb_neq in H41. auto. }
  assert (Hj : forall c, In c (join [32] tags) -> c <> 41).
  { clear Hne Hw. induction tags as [|t ts IH]; [intros c []|].
    inversion Hw' as [|? ? [_ Hc] Hws]; subst.
    intros c Hin. destruct ts as [|t2 ts]; [apply (Hc c Hin)|].
    change (join [32] (t :: t2 :: ts)) with (t ++ [32] ++ join [32] (t2 :: ts)) in Hin.
    apply in_app_or in Hin as [Hin|[<-|Hin]]; [apply (Hc c Hin)|discriminate|apply IH; auto]. }
  destruct tags as [|t ts]; [contradiction|].
  pose proof (Forall_inv Hw') as [Ht Hc].
  destruct t as [|c t]; [contradiction|].
  destruct (Hc c (or_introl eq_refl)) as [_ [Hrc _]].
  change (s "[tags]:# (") with (s "[tags]:#" ++ [32; 40]).
  unfold parseTags. rewrite <- app_assoc, strip_prefix_app.
  change (drop_while re_space ([32; 40] ++ ?x)) with (40 :: x). cbv beta iota.
  rewrite close_paren_app by exact Hj.
  assert (Hb : join [32] (@cons gostring (c :: t) ts)
               = c :: t ++ match ts with [] => [] | _ => [32] ++ join [32] ts end).
  { destruct ts; [cbn; rewrite app_nil_r|]; reflexivity. }
  rewrite Hb. cbn [drop_while]. rewrite Hrc. rewrite <- Hb.
  f_equal. apply fields_join; [exact Hsp|discriminate|].
  eapply Forall_impl; [|exact Hw']. intros u [Hu Hcu]. split; [exact Hu|].
  intros d Hd. apply (Hcu d Hd).
Qed.

(** ** Prompts *)

Lemma drop_while_app (p : Z -> bool) x y :
  forallb p x = true -> drop_while p (x ++ y) = drop_while p y.
Proof.
  induction x as [|c x IH]; intro H; [reflexivity|].
  cbn in H |- *. apply andb_true_iff in H as [Hc Hx]. rewrite Hc. apply IH, Hx.
Qed.

Lemma take_while_app (p : Z -> bool) x y :
  forallb p x = true -> take_while p (x ++ y) = x ++ take_while p y.
Proof.
  induction x as [|c x IH]; intro H; [reflexivity|].
  cbn in H |- *. apply andb_true_iff in H as [Hc Hx]. rewrite Hc, IH by exact Hx. reflexivity.
Qed.

Lemma drop_while_stop (p : Z -> bool) c y : p c = false -> drop_while p (c :: y) = c :: y.
Proof. intro H. cbn. rewrite H. reflexivity. Qed.

Lemma take_while_stop (p : Z -> bool) c y : p c = false -> take_while p (c :: y) = [].
Proof. intro H. cbn. rewrite H. reflexivity. Qed.

Lemma str_eqb_false a b : a <> b -> str_eqb a b = false.
Proof. intro H. destruct (str_eqb_spec a b); congruence. Qed.

Lemma re_word_not_space c : re_word c = true -> re_space c = false.
Proof.
  unfold re_word, re_space. intro H.
  repeat match goal with
         | H : (_ || _) = true |- _ => apply orb_true_iff in H as [H|H]
         | H : (_ && _) = true |- _ => apply andb_true_iff in H as [? ?]
         | H : (_ <=? _) = true |- _ => apply Z.leb_le in H
         | H : (_ =? _) = true |- _ => apply Z.eqb_eq in H
         end;
  repeat (apply orb_false_iff; split); apply Z.eqb_neq; lia.
Qed.

Lemma prompt_tail_default dflt :
  dflt <> [] -> forallb not_re_space dflt = true ->
  prompt_tail (32 :: dflt ++ [41]) = Some dflt.
Proof.
  intros Hne Hd. unfold prompt_tail.
  change (drop_while re_space (32 :: ?x)) with (drop_while re_space x).
  destruct dflt as [|d0 dr]; [contradiction|].
  assert (Hd0 : re_space d0 = false).
  { cbn in Hd. apply andb_true_iff in Hd as [Hd0 _]. apply negb_true_iff, Hd0. }
  rewrite <- app_comm_cons, drop_while_stop by exact Hd0. rewrite app_comm_cons.
  rewrite take_while_app, drop_while_app by exact Hd.
  change (take_while not_re_space [41]) with [41].
  change (drop_while not_re_space [41]) with (@nil Z).
  change (drop_while re_space []) with (@nil Z).
  rewrite (str_eqb_false [] [41]) by discriminate. rewrite andb_false_r.
  rewrite str_eqb_refl, last_last, length_app, Z.eqb_refl, removelast_last.
  destruct (Nat.leb_spec 2 (List.length (d0 :: dr) + List.length [41])) as [_|H];
    [reflexivity|cbn [List.length] in H; lia].
Qed.

Lemma prompt_options_tail_full J dflt :
  forallb (fun c => negb (Z.eqb c 93)) J = true ->
  dflt <> [] -> forallb not_re_space dflt = true ->
  prompt_options_tail ([32; 91] ++ J ++ [93; 32] ++ dflt ++ [41])
  = Some (91 :: J ++ [93], dflt).
Proof.
  intros HJ Hne Hd. unfold prompt_options_tail.
  change (drop_while re_space ([32; 91] ++ ?x)) with (91 :: x). cbv beta iota zeta.
  rewrite take_while_app, drop_while_app by exact HJ.
  change (take_while (fun c => negb (Z.eqb c 93)) ([93; 32] ++ ?x)) with (@nil Z).
  change (drop_while (fun c => negb (Z.eqb c 93)) ([93; 32] ++ ?x)) with (93 :: 32 :: x).
  cbv beta iota. rewrite prompt_tail_default by assumption.
  rewrite app_nil_r. reflexivity.
Qed.

Lemma prompt_match_full name text J dflt :
  name <> [] -> forallb re_word name = true ->
  text <> [] -> forallb (fun c => negb (Z.eqb c 34)) text = true ->
  forallb (fun c => negb (Z.eqb c 93)) J = true ->
  dflt <> [] -> forallb not_re_space dflt = true ->
  prompt_match (s "[prompt]:# (" ++ name ++ [32; 34] ++ text ++ [34; 32; 91]
                ++ J ++ [93; 32] ++ dflt ++ [41])
  = Some (name, text, 91 :: J ++ [93], dflt).
Proof.
  intros Hn Hnw Ht Htq HJ Hne Hd. unfold prompt_match.
  change (s "[prompt]:# (") with (s "[prompt]:#" ++ [32; 40]).
  rewrite <- app_assoc, strip_prefix_app.
  change (drop_while re_space ([32; 40] ++ ?x)) with (40 :: x). cbv beta iota zeta.
  destruct name as [|n0 nr]; [contradiction|].
  assert (Hn0 : re_space n0 = false).
  { cbn in Hnw. apply andb_true_iff in Hnw as [H _]. apply re_word_not_space, H. }
  rewrite <- app_comm_cons, drop_while_stop by exact Hn0. rewrite app_comm_cons.
  rewrite take_while_app, drop_while_app by exact Hnw.
  change (take_while re_word ([32; 34] ++ ?x)) with (@nil Z).
  change (drop_while re_word ([32; 34] ++ ?x)) with (32 :: 34 :: x).
  rewrite app_nil_r. cbv beta iota.
  change (re_space 32) with true. cbv beta iota.
  change (drop_while re_space (32 :: 34 :: ?x)) with (34 :: x). cbv beta iota.
  rewrite take_while_app, drop_while_app by exact Htq.
  change (take_while (fun c => negb (Z.eqb c 34)) ([34; 32; 91] ++ ?x)) with (@nil Z).
  change (drop_while (fun c => negb (Z.eqb c 34)) ([34; 32; 91] ++ ?x)) with (34 :: [32; 91] ++ x).
  rewrite app_nil_r.
  destruct text as [|t0 tr]; [contradiction|]. cbv beta iota.
  rewrite prompt_options_tail_full by assumption. reflexivity.
Qed.

Lemma in_join c : forall xs, In c (join [32] xs) -> c = 32 \/ exists x, In x xs /\ In c x.
Proof.
  induction xs as [|x xs IH]; [intros []|]. intro H.
  destruct xs as [|x2 xs]; [right; exists x; split; [left|]; auto|].
  change (join [32] (x :: x2 :: xs)) with (x ++ [32] ++ join [32] (x2 :: xs)) in H.
  apply in_app_or in H as [H|[<-|H]]; [right; exists x; split; [left|]; auto|left; reflexivity|].
  destruct (IH H) as [E|[y [Hy Hc]]]; [left; exact E|right; exists y; split; [right|]; auto].
Qed.

Lemma drop_while_none (p : Z -> bool) x :
  forallb (fun c => negb (p c)) x = true -> drop_while p x = x.
Proof.
  destruct x as [|c x]; [reflexivity|]. cbn. intro H.
  apply andb_true_iff in H as [H _]. apply negb_true_iff in H. rewrite H. reflexivity.
Qed.

Lemma forallb_rev (p : Z -> bool) x : forallb p (rev x) = forallb p x.
Proof.
  destruct (forallb p x) eqn:E.
  - apply forallb_forall. intros c Hc. apply in_rev in Hc. rewrite forallb_forall in E. auto.
  - apply not_true_iff_false. intro H. apply not_true_iff_false in E. apply E.
    apply forallb_forall. intros c Hc. rewrite forallb_forall in H. apply H, in_rev.
    rewrite rev_involutive. exact Hc.
Qed.

Lemma trim_brackets_wrapped J :
  forallb (fun c => negb (is_bracket c)) J = true -> trim_brackets (91 :: J ++ [93]) = J.
Proof.
  intro H. unfold trim_brackets. change (drop_while is_bracket (91 :: ?x)) with (drop_while is_bracket x).
  destruct J as [|j J']; [reflexivity|].
  assert (Hj : is_bracket j = false).
  { cbn in H. apply andb_true_iff in H as [Hj _]. apply negb_true_iff, Hj. }
  rewrite <- app_comm_cons, drop_while_stop by exact Hj. rewrite app_comm_cons.
  rewrite rev_app_distr. change (drop_while is_bracket (rev [93] ++ ?x)) with (drop_while is_bracket x).
  rewrite drop_while_none by (rewrite forallb_rev; exact H). apply rev_involutive.
Qed.

Lemma trim_space_none x : forallb (fun c => negb (is_space U c)) x = true -> trim_space U x = x.
Proof.
  intro H. unfold trim_space. rewrite (drop_while_none _ x H).
  rewrite drop_while_none by (rewrite forallb_rev; exact H). apply rev_involutive.
Qed.

(** A prompt directive written from a word name, a quoted text, a bracketed
    option list and a default parses back into the same prompt. *)
Theorem parsePrompt_roundtrip (name text : gostring) (opts : list gostring) (dflt : gostring)
    (Hsp : is_space U 32 = true)
    (Hn : name <> []) (Hnw : forallb re_word name = true)
    (Ht : text <> []) (Htq : forallb (fun c => negb (Z.eqb c 34)) text = true)
    (Ho : Forall (fun o => o <> [] /\
            forallb (fun c => negb (is_space U c) && negb (is_bracket c)) o = true) opts)
    (Hd : dflt <> []) (Hdw : forallb not_re_space dflt = true) :
  parsePrompt U (s "[prompt]:# (" ++ name ++ [32; 34] ++ text ++ [34; 32; 91]
                 ++ join [32] opts ++ [93; 32] ++ dflt ++ [41])
  = Some (mkPrompt name text opts dflt).
Proof.
  assert (Hc : forall c, In c (join [32] opts) -> is_bracket c = false /\
                 (c = 32 \/ is_space U c = false)).
  { intros c Hin. apply in_join in Hin as [->|[o [Hoi Hco]]]; [split; [reflexivity|left; reflexivity]|].
    rewrite Forall_forall in Ho. destruct (Ho o Hoi) as [_ Hf].
    rewrite forallb_forall in Hf. specialize (Hf c Hco).
    apply andb_true_iff in Hf as [H1 H2]. apply negb_true_iff in H1, H2. auto. }
  assert (HJb : forallb (fun c => negb (is_bracket c)) (join [32] opts) = true).
  { apply forallb_forall. intros c Hin. rewrite (proj1 (Hc c Hin)). reflexivity. }
  assert (HJ : forallb (fun c => negb (Z.eqb c 93)) (join [32] opts) = true).
  { apply forallb_forall. intros c Hin. destruct (Z.eqb_spec c 93) as [->|]; [|reflexivity].
    destruct (Hc 93 Hin) as [E _]. discriminate. }
  unfold parsePrompt. rewrite prompt_match_full by assumption.
  rewrite str_eqb_false by discriminate.
  rewrite trim_brackets_wrapped by exact HJb.
  assert (Ho' : Forall (fun o => o <> [] /\ forall c, In c o -> is_space U c = false) opts).
  { eapply Forall_impl; [|exact Ho]. intros o [Hne Hf]. split; [exact Hne|].
    intros c Hco. rewrite forallb_forall in Hf. specialize (Hf c Hco).
    apply andb_true_iff in Hf as [H1 _]. apply negb_true_iff, H1. }
  destruct opts as [|o os]; [reflexivity|].
  rewrite fields_join by (exact Hsp || discriminate || exact Ho').
  rewrite (map_ext_in (trim_space U) id).
  - rewrite map_id. reflexivity.
  - intros x Hx. apply trim_space_none. rewrite Forall_forall in Ho.
    destruct (Ho x Hx) as [_ Hf]. apply forallb_forall. intros c Hc'.
    rewrite forallb_forall in Hf. specialize (Hf c Hc').
    apply andb_true_iff in Hf as [H1 _]. exact H1.
Qed.

(** ** Exit codes *)

Lemma digits_value_app acc x y :
  digits_value acc (x ++ y)
  = match digits_value acc x with Some a => digits_value a y | None => None end.
Proof.
  revert acc. induction x as [|c x IH]; intro acc; [reflexivity|].
  cbn [app digits_value]. destruct ((48 <=? c) && (c <=? 57)); [apply IH|reflexivity].
Qed.

Lemma digits_rev_value : forall f n, 0 <= n < 10 ^ Z.of_nat f ->
  digits_value 0 (rev (digits_rev f n)) = Some n.
Proof.
  induction f as [|f IH]; intros n Hn.
  - cbn in Hn. cbn. f_equal. lia.
  - cbn [digits_rev rev]. rewrite digits_value_app.
    assert (Hm : 0 <= n mod 10 < 10) by (apply Z.mod_pos_bound; lia).
    assert (Hd : (48 <=? 48 + n mod 10) && (48 + n mod 10 <=? 57) = true)
      by (apply andb_true_iff; split; apply Z.leb_le; lia).
    rewrite Nat2Z.inj_succ, Z.pow_succ_r in Hn by lia.
    destruct (Z.eqb_spec (n / 10) 0) as [E|E].
    + cbn [rev app digits_value]. rewrite Hd. f_equal.
      pose proof (Z.div_mod n 10). lia.
    + rewrite IH.
      * cbn [digits_value]. rewrite Hd. f_equal. pose proof (Z.div_mod n 10). lia.
      * split; [apply Z.div_pos; lia|]. apply Z.div_lt_upper_bound; lia.
Qed.

Lemma digits_rev_digits : forall f n c, 0 <= n -> In c (digits_rev f n) -> 48 <= c <= 57.
Proof.
  induction f as [|f IH]; intros n c Hn Hc; [destruct Hc|].
  cbn [digits_rev] in Hc. destruct Hc as [<-|Hc].
  - pose proof (Z.mod_pos_bound n 10). lia.
  - destruct (n / 10 =? 0); [destruct Hc|]. apply (IH (n / 10)); [apply Z.div_pos; lia|exact Hc].
Qed.

Lemma digits_rev_nonempty f n : digits_rev (S f) n <> [].
Proof. discriminate. Qed.

Lemma atoi_unsigned x : hd 0 x <> 43 -> hd 0 x <> 45 ->
  atoi x = match x with
           | [] => None
           | _ => match digits_value 0 x with
                  | None => None
                  | Some v => if (- 2 ^ 63 <=? v) && (v <=? 2 ^ 63 - 1) then Some v else None
                  end
           end.
Proof.
  unfold atoi. destruct x as [|d r]; [reflexivity|]. cbn [hd]. intros H43 H45.
  destruct d as [|p|p]; [reflexivity| |reflexivity].
  repeat (destruct p as [p|p|]; try reflexivity); exfalso; lia.
Qed.

(** A 64-bit status written in decimal, as the wrapped snippet's [echo] of
    [$exitCode] writes it, reads back through [strconv.Atoi] as itself. *)
Theorem atoi_itoa (z : Z) (H : - 2 ^ 63 <= z <= 2 ^ 63 - 1) : atoi (itoa z) = Some z.
Proof.
  assert (Hb : Z.abs z < 10 ^ Z.of_nat 20).
  { assert (2 ^ 63 < 10 ^ Z.of_nat 20) by reflexivity. lia. }
  pose proof (digits_rev_value 20 (Z.abs z) (conj (Z.abs_nonneg z) Hb)) as Hv.
  assert (Hdig : forall c, In c (rev (digits_rev 20 (Z.abs z))) -> 48 <= c <= 57).
  { intros c Hc. apply in_rev in Hc. exact (digits_rev_digits 20 (Z.abs z) c (Z.abs_nonneg z) Hc). }
  unfold itoa.
  destruct (rev (digits_rev 20 (Z.abs z))) as [|d ds] eqn:Eds.
  { apply (f_equal (@rev Z)) in Eds. rewrite rev_involutive in Eds.
    exfalso. exact (digits_rev_nonempty 19 _ Eds). }
  destruct (Z.ltb_spec z 0) as [Hneg|Hpos].
  - cbn [app]. unfold atoi. cbv beta iota. rewrite Hv.
    replace (- Z.abs z) with z by lia.
    replace ((- 2 ^ 63 <=? z) && (z <=? 2 ^ 63 - 1)) with true
      by (symmetry; apply andb_true_iff; split; apply Z.leb_le; lia).
    reflexivity.
  - cbn [app]. specialize (Hdig d (or_introl eq_refl)).
    rewrite atoi_unsigned by (cbn [hd]; lia). rewrite Hv.
    replace (Z.abs z) with z by lia.
    replace ((- 2 ^ 63 <=? z) && (z <=? 2 ^ 63 - 1)) with true
      by (symmetry; apply andb_true_iff; split; apply Z.leb_le; lia).
    reflexivity.
Qed.

(** ** The prompt resolver *)

Variable PS : Type.
Variable ask : PS -> gostring -> PS * gostring.

Lemma processPrompt_loop_skip ps m pre rest :
  (forall l, In l pre -> has_prefix (s "[prompt]:#") (trim_space U l) = false) ->
  processPrompt_loop U PS ask ps m (pre ++ rest) = processPrompt_loop U PS ask ps m rest.
Proof.
  induction pre as [|l pre IH]; intro H; [reflexivity|].
  cbn [app processPrompt_loop]. rewrite (H l (or_introl eq_refl)).
  apply IH. intros l' Hl'. apply H. right. exact Hl'.
Qed.

(** [processPrompt] ignores lines that are not prompt directives, asks
    nothing for them, and fails on the first malformed directive with the
    trimmed line, before asking anything. *)
Theorem processPrompt_skips_non_directives (ps : PS) (pre : list gostring)
    (Hpre : forall l, In l pre -> has_prefix (s "[prompt]:#") (trim_space U l) = false) :
  processPrompt U PS ask ps pre = (ps, inl []) /\
  (forall line post,
   has_prefix (s "[prompt]:#") (trim_space U line) = true ->
   parsePrompt U (trim_space U line) = None ->
   processPrompt U PS ask ps (pre ++ line :: post)
   = (ps, inr (ErrInvalidPromptFormat (trim_space U line)))).
Proof.
  unfold processPrompt. split.
  - rewrite <- (app_nil_r pre), processPrompt_loop_skip by exact Hpre. reflexivity.
  - intros line post Hd Hp. rewrite processPrompt_loop_skip by exact Hpre.
    cbn [processPrompt_loop]. rewrite Hd, Hp. reflexivity.
Qed.

(** ** The runner registry *)

Variable RS : Type.
Variable spawn : Family -> RS -> option RS.
Variable run : Family -> RS -> gostring -> RS * (gostring * option gostring).

Lemma Family_eqb_spec a b : reflect (a = b) (Family_eqb a b).
Proof. destruct a, b; constructor; congruence. Qed.

Lemma existsb_Family f l : existsb (Family_eqb f) l = true <-> In f l.
Proof.
  rewrite existsb_exists. split.
  - intros [g [Hg E]]. destruct (Family_eqb_spec f g); [subst; exact Hg|discriminate].
  - intro H. exists f. split; [exact H|]. destruct f; reflexivity.
Qed.

(** [GetRunner] returns only the runner of the language's family, starts
    each family at most once (a started runner is reused without a spawn),
    leaves the world unchanged when no runner is returned, and never changes
    the output, the operator or the environment. *)
Theorem GetRunner_singleton (w : World PS RS) (lang : gostring) :
  let '(w', runner) := GetRunner PS RS spawn w lang in
  (forall f, runner = Some f -> family_of lang = Some f /\ In f (registry PS RS w')) /\
  (forall f, family_of lang = Some f -> In f (registry PS RS w) -> w' = w /\ runner = Some f) /\
  (runner = None -> w' = w) /\
  (NoDup (registry PS RS w) -> NoDup (registry PS RS w')) /\
  incl (registry PS RS w) (registry PS RS w') /\
  out PS RS w' = out PS RS w /\ operator PS RS w' = operator PS RS w /\
  environ PS RS w' = environ PS RS w.
Proof.
  unfold GetRunner. destruct (family_of lang) as [f|] eqn:Ef.
  - destruct (existsb (Family_eqb f) (registry PS RS w)) eqn:Ein.
    + apply existsb_Family in Ein.
      split; [intros g E; injection E as <-; auto|].
      split; [intros g E _; injection E as <-; auto|].
      split; [discriminate|]. split; [auto|]. split; [apply incl_refl|]. auto.
    + destruct (spawn f (shells PS RS w)) as [rs|] eqn:Es.
      * cbn [registry out operator environ].
        split; [intros g E; injection E as <-; split; [reflexivity|left; reflexivity]|].
        split; [intros g E Hin; injection E as <-; apply existsb_Family in Hin; congruence|].
        split; [discriminate|].
        split; [intro H; constructor; [intro Hin; apply existsb_Family in Hin; congruence|exact H]|].
        split; [apply incl_tl, incl_refl|]. auto.
      * split; [discriminate|].
        split; [intros g E Hin; injection E as <-; apply existsb_Family in Hin; congruence|].
        split; [auto|]. split; [auto|]. split; [apply incl_refl|]. auto.
  - split; [discriminate|]. split; [discriminate|].
    split; [auto|]. split; [auto|]. split; [apply incl_refl|]. auto.
Qed.

Lemma GetRunner_none (w : World PS RS) lang :
  snd (GetRunner PS RS spawn w lang) = None -> GetRunner PS RS spawn w lang = (w, None).
Proof.
  unfold GetRunner. destruct (family_of lang) as [f|]; [|reflexivity].
  destruct (existsb (Family_eqb f) (registry PS RS w)); [discriminate|].
  destruct (spawn f (shells PS RS w)); [discriminate|reflexivity].
Qed.

Lemma GetRunner_registered (w : World PS RS) lang f :
  family_of lang = Some f -> In f (registry PS RS w) ->
  GetRunner PS RS spawn w lang = (w, Some f).
Proof.
  intros Ef Hin. unfold GetRunner. rewrite Ef.
  apply existsb_Family in Hin. rewrite Hin. reflexivity.
Qed.

Lemma GetRunner_some (w w' : World PS RS) lang f :
  GetRunner PS RS spawn w lang = (w', Some f) ->
  family_of lang = Some f /\ In f (registry PS RS w').
Proof.
  unfold GetRunner. destruct (family_of lang) as [g|]; [|discriminate].
  destruct (existsb (Family_eqb g) (registry PS RS w)) eqn:Ein.
  - intro E. injection E as <- <-. apply existsb_Family in Ein. auto.
  - destruct (spawn g (shells PS RS w)); [|discriminate].
    intro E. injection E as <- <-. split; [reflexivity|left; reflexivity].
Qed.

Lemma prompt_call_frame (w w' : World PS RS) m r :
  prompt_call PS ask RS w m = (w', r) ->
  w' = mkWorld PS RS (out PS RS w) (fst (ask (operator PS RS w) m))
         (environ PS RS w) (registry PS RS w) (shells PS RS w) /\
  r = snd (ask (operator PS RS w) m).
Proof.
  unfold prompt_call. destruct (ask (operator PS RS w) m) as [ps r0].
  intro E. injection E as <- <-. auto.
Qed.

Lemma after_recursive_call_ok x (w : World PS RS) r :
  (forall w0 r0, x = Some (w0, r0) -> exists b, r0 = CBReturn None b) ->
  after_recursive_call PS RS x = Some (w, r) -> exists b, r = CBReturn None b.
Proof.
  intros H E. destruct x as [[w0 [[e|] b|]]|]; cbn in E; try discriminate.
  - destruct (H _ _ eq_refl) as [b' E']. discriminate.
  - injection E as _ <-. exists false. reflexivity.
  - destruct (H _ _ eq_refl) as [b' E']. discriminate.
Qed.

Lemma processCodeBlock_no_panic_gen : forall fuel (w : World PS RS) code choice w' r,
  (choice = [] \/ exists f, family_of (code_language code) = Some f /\ In f (registry PS RS w)) ->
  processCodeBlock U PS ask RS spawn run fuel w code choice = Some (w', r) ->
  exists b, r = CBReturn None b.
Proof.
  induction fuel as [|fuel IH]; intros w code choice w' r Hc E; [discriminate|].
  cbn [processCodeBlock] in E.
  destruct (List.length code <=? 2)%nat.
  { injection E as _ <-. exists false. reflexivity. }
  change (if (1 <? List.length (split (hd [] code) (s "```")))%nat
          then nth 1 (split (hd [] code) (s "```")) [] else []) with (code_language code) in E.
  destruct (GetRunner PS RS spawn w (code_language code)) as [w1 runner] eqn:EG.
  assert (Hrun : choice <> [] -> exists f, runner = Some f /\ In f (registry PS RS w1)).
  { intro Hne. destruct Hc as [Hc|[f [Ef Hin]]]; [contradiction|].
    rewrite (GetRunner_registered w _ f Ef Hin) in EG. injection EG as <- <-. eauto. }
  assert (Hreg : forall f, runner = Some f ->
            family_of (code_language code) = Some f /\ In f (registry PS RS w1)).
  { intros f ->. exact (GetRunner_some _ _ _ _ EG). }
  clear EG Hc.
  repeat match goal with
         | H : context [match ?x with _ => _ end] |- _ =>
             lazymatch x with
             | processCodeBlock _ _ _ _ _ _ _ _ _ _ => fail
             | _ => destruct x eqn:?
             end
         end;
  repeat match goal with
         | H : prompt_call _ _ _ _ _ = (_, _) |- _ => apply prompt_call_frame in H as [-> ->]
         end;
  try (injection E as _ <-; eexists; reflexivity);
  try (eapply after_recursive_call_ok; [|exact E]; intros ? ? E0;
       eapply IH; [|exact E0];
       first [left; reflexivity
             |right; destruct (Hreg _ eq_refl) as [Hf Hin]; eexists; split; [exact Hf|];
              cbn [registry write]; exact Hin]).
  all: match goal with
       | H : str_eqb ?c [] = false |- _ =>
           destruct (Hrun ltac:(intro Hx; rewrite Hx in H; discriminate)) as [? [Hf _]];
           discriminate
       end.
Qed.

Lemma run_sections_no_error fuel : forall secs (w : World PS RS) w' r,
  run_sections U PS ask RS spawn run fuel w secs = Some (w', r) -> r = RMReturn None.
Proof.
  induction secs as [|sec rest IH]; intros w w' r E.
  - injection E as _ <-. reflexivity.
  - cbn [run_sections] in E. destruct (SecType sec).
    + eapply IH, E.
    + destruct rest as [|next rest']; [eapply IH, E|].
      destruct (SectionType_eqb (SecType next) SectionHeader); [|eapply IH, E].
      destruct (prompt_call PS ask RS _ _) as [w2 rr].
      destruct (str_eqb (go_to_lower U rr) (s "exit")); [injection E as _ <-; reflexivity|].
      eapply IH, E.
    + destruct (processCodeBlock U PS ask RS spawn run fuel _ (Lines sec) []) as [[w2 cr]|] eqn:Ecb;
        [|discriminate].
      destruct (processCodeBlock_no_panic_gen _ _ _ _ _ _ (or_introl eq_refl) Ecb) as [b ->].
      destruct b; [injection E as _ <-; reflexivity|eapply IH, E].
    + destruct (prompt_section U PS ask RS fuel w (Lines sec)); [eapply IH, E|discriminate].
    + eapply IH, E.
Qed.

(** [processCodeBlock] as [RunMarkdown] calls it (no preset choice) never
    returns an error and never calls [Run] on a nil runner; [RunMarkdown]
    therefore never returns an error and never panics. *)
Theorem RunMarkdown_no_error (fuel : nat) (w : World PS RS) (doc : list gostring)
    (startAnchor : gostring) (tags : list gostring) (code : list gostring) :
  match processCodeBlock U PS ask RS spawn run fuel w code [] with
  | Some (_, r) => exists b, r = CBReturn None b
  | None => True
  end /\
  match RunMarkdown U PS ask RS spawn run fuel w doc startAnchor tags with
  | Some (_, r) => r = RMReturn None
  | None => True
  end.
Proof.
  split.
  - destruct (processCodeBlock U PS ask RS spawn run fuel w code []) as [[w' r]|] eqn:E;
      [|exact I].
    exact (processCodeBlock_no_panic_gen _ _ _ _ _ _ (or_introl eq_refl) E).
  - unfold RunMarkdown.
    destruct (run_sections U PS ask RS spawn run fuel w _) as [[w' r]|] eqn:E; [|exact I].
    exact (run_sections_no_error _ _ _ _ _ E).
Qed.

(** When no runner is found for the block's language, [processCodeBlock]
    tells the operator, ignores the answer, runs nothing and returns without
    error or exit. *)
Theorem processCodeBlock_no_runner (fuel : nat) (w : World PS RS) (code : list gostring)
    (Hlen : (2 < List.length code)%nat)
    (Hnone : snd (GetRunner PS RS spawn w (code_language code)) = None) :
  processCodeBlock U PS ask RS spawn run (S fuel) w code []
  = Some (mkWorld PS RS (out PS RS w) (fst (ask (operator PS RS w) msg_no_runner))
            (environ PS RS w) (registry PS RS w) (shells PS RS w),
          CBReturn None false).
Proof.
  cbn [processCodeBlock].
  replace (List.length code <=? 2)%nat with false by (symmetry; apply Nat.leb_gt; exact Hlen).
  change (if (1 <? List.length (split (hd [] code) (s "```")))%nat
          then nth 1 (split (hd [] code) (s "```")) [] else []) with (code_language code).
  rewrite (GetRunner_none w _ Hnone), str_eqb_refl.
  unfold prompt_call. destruct (ask (operator PS RS w) msg_no_runner). reflexivity.
Qed.

(** At the first question, answer x exits and answer s (or an empty answer)
    skips the block, in both cases without running the code. *)
Theorem processCodeBlock_first_answer (fuel : nat) (w w1 : World PS RS) (code : list gostring)
    (f : Family) (ps : PS) (r : gostring)
    (Hlen : (2 < List.length code)%nat)
    (HG : GetRunner PS RS spawn w (code_language code) = (w1, Some f))
    (Hask : ask (operator PS RS w1) msg_run = (ps, r)) :
  let w2 := mkWorld PS RS (out PS RS w1) ps (environ PS RS w1) (registry PS RS w1)
              (shells PS RS w1) in
  (go_to_lower U (trim_space U r) = s "x" ->
   processCodeBlock U PS ask RS spawn run (S fuel) w code [] = Some (w2, CBReturn None true)) /\
  (go_to_lower U (trim_space U r) = s "s" \/ go_to_lower U (trim_space U r) = [] ->
   processCodeBlock U PS ask RS spawn run (S fuel) w code [] = Some (w2, CBReturn None false)).
Proof.
  intro w2.
  cbn [processCodeBlock].
  replace (List.length code <=? 2)%nat with false by (symmetry; apply Nat.leb_gt; exact Hlen).
  change (if (1 <? List.length (split (hd [] code) (s "```")))%nat
          then nth 1 (split (hd [] code) (s "```")) [] else []) with (code_language code).
  rewrite HG, str_eqb_refl. unfold prompt_call. rewrite Hask. cbn [fst snd].
  split.
  - intro Hx. rewrite Hx. reflexivity.
  - intros [Hs|He]; rewrite ?Hs, ?He; reflexivity.
Qed.

Lemma repeat_str_level (line : gostring) :
  repeat_str (s "  ") (Z.of_nat (snd (getHeadingText U line)) - 1) = None <-> hd 0 line <> 35.
Proof.
  unfold getHeadingText, repeat_str. cbn [snd].
  destruct line as [|c line]; cbn [take_while hd List.length].
  - split; [intros _; discriminate|intros _; reflexivity].
  - destruct (Z.eqb_spec 35 c) as [<-|Hc]; cbn [List.length].
    + split; [|intro H; congruence].
      destruct (Z.ltb_spec (Z.of_nat (S (List.length (take_while (Z.eqb 35) line))) - 1) 0);
        [lia|discriminate].
    + split; [intros _; congruence|intros _; reflexivity].
Qed.

Lemma PrintTOC_loop_spec : forall secs w,
  match PrintTOC_loop U w secs with
  | None => exists sec, In sec secs /\ SecType sec = SectionHeader /\ hd 0 (hd [] (Lines sec)) <> 35
  | Some o =>
      List.length o = (List.length w + List.length (filter is_header_sec secs))%nat /\
      Forall (fun sec => SecType sec = SectionHeader -> hd 0 (hd [] (Lines sec)) = 35) secs
  end.
Proof.
  induction secs as [|sec rest IH]; intro w.
  - cbn. split; [lia|constructor].
  - cbn [PrintTOC_loop filter]. unfold is_header_sec at 1.
    destruct (SecType sec) eqn:Et; cbn [SectionType_eqb].
    all: try (specialize (IH w); destruct (PrintTOC_loop U w rest);
              [destruct IH as [IH1 IH2]; split; [exact IH1|constructor; [congruence|exact IH2]]
              |destruct IH as [x [Hx1 Hx2]]; exists x; split; [right; exact Hx1|exact Hx2]]).
    destruct (getHeadingText U (hd [] (Lines sec))) as [header level] eqn:Eh.
    destruct (repeat_str (s "  ") (Z.of_nat level - 1)) as [indent|] eqn:Er.
    + specialize (IH (w ++ [indent ++ s "- " ++ header ++ s " (" ++ normalizeAnchor U header
                          ++ s ")" ++ [10]])).
      destruct (PrintTOC_loop U _ rest).
      * destruct IH as [IH1 IH2]. split.
        -- rewrite IH1, length_app. cbn [List.length]. lia.
        -- constructor; [|exact IH2]. intros _.
           destruct (Z.eq_dec (hd 0 (hd [] (Lines sec))) 35) as [E|E]; [exact E|].
           apply repeat_str_level in E. rewrite Eh in E. cbn [snd] in E. congruence.
      * destruct IH as [x [Hx1 Hx2]]. exists x. split; [right; exact Hx1|exact Hx2].
    + exists sec. split; [left; reflexivity|split; [exact Et|]].
      apply repeat_str_level. rewrite Eh. exact Er.
Qed.

(** [PrintTOC] panics ([strings.Repeat] with count -1) exactly when some
    header section's first line does not start with '#' (a header line
    indented with spaces); otherwise it writes one line per header section. *)
Theorem PrintTOC_result (doc : list gostring) :
  match PrintTOC U doc with
  | None => exists sec, In sec (parseSections U doc [] []) /\ SecType sec = SectionHeader /\
                        hd 0 (hd [] (Lines sec)) <> 35
  | Some o =>
      List.length o = List.length (filter is_header_sec (parseSections U doc [] [])) /\
      (forall sec, In sec (parseSections U doc [] []) -> SecType sec = SectionHeader ->
                   hd 0 (hd [] (Lines sec)) = 35)
  end.
Proof.
  unfold PrintTOC. pose proof (PrintTOC_loop_spec (parseSections U doc [] []) []) as H.
  destruct (PrintTOC_loop U [] _); [|exact H].
  destruct H as [H1 H2]. split; [exact H1|].
  rewrite Forall_forall in H2. exact H2.
Qed.

End Extras.

(** [runnerIO.Run] returns the lines before the marker, each ended by a
    newline, and leaves the lines after the marker for the next call;
    successive calls therefore split the shell's output at the markers. *)
Theorem runnerIO_Run_marker (pre rest : list gostring) (Hpre : ~ In marker pre) :
  runnerIO_Run true (pre ++ marker :: rest) = (rest, inl (List.concat (map (fun l => l ++ [10]) pre))).
Proof.
  unfold runnerIO_Run. cbn [negb]. rewrite (read_until_marker_app pre rest Hpre). reflexivity.
Qed.

(** ** Instances of the properties above *)

Lemma parseSections_from_anchor_witness :
  parseSections ascii_tables spec_doc (s "subsection") [s "foo"]
  = filter (fun sec => checkForAlwaysTag (Tags sec)) (firstn 3 (segment ascii_tables spec_doc))
    ++ filter (fun sec => checkSectionTag (Tags sec) [s "foo"])
         (nth 3 (segment ascii_tables spec_doc) title_section
          :: skipn 4 (segment ascii_tables spec_doc)).
Proof.
  apply (parseSections_from_anchor ascii_tables spec_doc (s "subsection") [s "foo"]).
  - discriminate.
  - vm_compute. reflexivity.
  - vm_compute. reflexivity.
  - vm_compute. reflexivity.
  - vm_compute. intros h' Hin.
    repeat (destruct Hin as [<-|Hin]; [intros _ E; discriminate E|]). destruct Hin.
Defined.

Lemma parseSections_section_shape_witness :
  let sec := nth 0 (parseSections ascii_tables spec_doc [] []) title_section in
  Lines sec <> [] /\
  (SecType sec = SectionHeader -> has_prefix (s "#") (trim_space ascii_tables (hd [] (Lines sec))) = true) /\
  (SecType sec = SectionPrompt ->
   exists l, Lines sec = [l] /\ has_prefix (s "[prompt]:#") (trim_space ascii_tables l) = true) /\
  SecType sec <> SectionUnknown.
Proof.
  apply (parseSections_section_shape ascii_tables spec_doc [] []).
  apply nth_In. vm_compute. lia.
Defined.

Lemma parseTags_words_witness :
  Forall (fun t => t <> [] /\ forall c, In c t -> is_space ascii_tables c = false) [s "foo"; s "bar"].
Proof.
  apply (parseTags_words ascii_tables (s "[tags]:# (foo bar)")). vm_compute. reflexivity.
Defined.

Lemma parseTags_roundtrip_witness :
  parseTags ascii_tables (s "[tags]:# (" ++ join [32] [s "foo"; s "bar"] ++ [41])
  = TagsOk [s "foo"; s "bar"].
Proof.
  apply (parseTags_roundtrip ascii_tables).
  - reflexivity.
  - discriminate.
  - repeat (apply Forall_cons; [split; [discriminate|reflexivity]|]); apply Forall_nil.
Defined.

Lemma parsePrompt_roundtrip_witness :
  parsePrompt ascii_tables (s "[prompt]:# (" ++ s "eggs" ++ [32; 34] ++ s "How many eggs?"
                 ++ [34; 32; 91] ++ join [32] [s "0"; s "1"; s "6"] ++ [93; 32] ++ s "6" ++ [41])
  = Some (mkPrompt (s "eggs") (s "How many eggs?") [s "0"; s "1"; s "6"] (s "6")).
Proof.
  apply (parsePrompt_roundtrip ascii_tables).
  all: try reflexivity; try discriminate.
  repeat (apply Forall_cons; [split; [discriminate|reflexivity]|]); apply Forall_nil.
Defined.

Lemma atoi_itoa_witness : atoi (itoa (-42)) = Some (-42).
Proof. apply atoi_itoa. lia. Defined.

Lemma processPrompt_skips_non_directives_witness :
  processPrompt ascii_tables (list gostring) fakePrompt [s "y"] [s "hello"; s "world"]
  = ([s "y"], inl []) /\
  (forall line post,
   has_prefix (s "[prompt]:#") (trim_space ascii_tables line) = true ->
   parsePrompt ascii_tables (trim_space ascii_tables line) = None ->
   processPrompt ascii_tables (list gostring) fakePrompt [s "y"] ([s "hello"; s "world"] ++ line :: post)
   = ([s "y"], inr (ErrInvalidPromptFormat (trim_space ascii_tables line)))).
Proof.
  apply (processPrompt_skips_non_directives ascii_tables (list gostring) fakePrompt).
  intros l Hin. repeat (destruct Hin as [<-|Hin]; [reflexivity|]). destruct Hin.
Defined.

Lemma processCodeBlock_no_runner_witness :
  processCodeBlock ascii_tables (list gostring) fakePrompt nat echo_spawn echo_run 1
    (world0 [s "s"]) [s "```python"; s "print(1)"; s "```"] []
  = Some (mkWorld _ _ (out _ _ (world0 [s "s"]))
            (fst (fakePrompt (operator _ _ (world0 [s "s"])) msg_no_runner))
            (environ _ _ (world0 [s "s"])) (registry _ _ (world0 [s "s"]))
            (shells _ _ (world0 [s "s"])),
          CBReturn None false).
Proof.
  apply (processCodeBlock_no_runner ascii_tables (list gostring) fakePrompt nat echo_spawn echo_run 0).
  - cbn. lia.
  - vm_compute. reflexivity.
Defined.

Lemma processCodeBlock_first_answer_witness :
  let w1 := fst (GetRunner _ _ echo_spawn (world0 [s "x"]) (s "bash")) in
  let w2 := mkWorld _ _ (out _ _ w1) [] (environ _ _ w1) (registry _ _ w1) (shells _ _ w1) in
  (go_to_lower ascii_tables (trim_space ascii_tables (s "x")) = s "x" ->
   processCodeBlock ascii_tables (list gostring) fakePrompt nat echo_spawn echo_run 1
     (world0 [s "x"]) [s "```bash"; s "echo hi"; s "```"] [] = Some (w2, CBReturn None true)) /\
  (go_to_lower ascii_tables (trim_space ascii_tables (s "x")) = s "s" \/
   go_to_lower ascii_tables (trim_space ascii_tables (s "x")) = [] ->
   processCodeBlock ascii_tables (list gostring) fakePrompt nat echo_spawn echo_run 1
     (world0 [s "x"]) [s "```bash"; s "echo hi"; s "```"] [] = Some (w2, CBReturn None false)).
Proof.
  apply (processCodeBlock_first_answer ascii_tables (list gostring) fakePrompt nat echo_spawn echo_run
           0 (world0 [s "x"]) (fst (GetRunner _ _ echo_spawn (world0 [s "x"]) (s "bash")))
           [s "```bash"; s "echo hi"; s "```"] FBash [] (s "x")).
  - cbn. lia.
  - vm_compute. reflexivity.
  - reflexivity.
Defined.

Lemma runnerIO_Run_marker_witness :
  runnerIO_Run true ([s "hi"] ++ marker :: [s "more"])
  = ([s "more"], inl (List.concat (map (fun l => l ++ [10]) [s "hi"]))).
Proof.
  apply runnerIO_Run_marker. intros [E|[]]. discriminate E.
Defined.
